(** * Tool enablement, Drive-picker validation and deployment configuration

    A shallow embedding of two files of the assistants web interface,

      - [src/hooks/tools.ts]
        ([useUnauthedTools], [useOpenGoogleDrivePicker], [useAvailableTools])
      - [src/components/EditEnvVariablesButton.tsx]
        ([EditEnvVariablesModal])

    together with the properties of their handlers.  React hooks are
    modelled by the values they close over: a handler is a function of the
    state it reads, returning the state it writes and, where it calls into a
    collaborator (notifier, picker, caller-supplied callback, modal close),
    the sequence of those calls. *)

From Stdlib Require Import String Ascii List Bool Arith NArith Lia Permutation Sorted.
Import ListNotations.

Local Open Scope string_scope.
Local Open Scope list_scope.

(** ** JavaScript values used by the two files *)

Module Js.

(** Truthiness of an optional boolean field: [undefined] and [false] are
    falsy. *)
Definition truthy_bool (b : option bool) : bool :=
  match b with
  | Some v => v
  | None => false
  end.

(** Truthiness of an optional string: [undefined] and [''] are falsy. *)
Definition truthy_string (s : option string) : bool :=
  match s with
  | Some v => negb (v =? "")
  | None => false
  end.

(** [a ?? []] *)
Definition or_empty {A : Type} (l : option (list A)) : list A :=
  match l with
  | Some v => v
  | None => []
  end.

(** [Array.prototype.join] on strings. *)
Definition join (sep : string) (l : list string) : string := String.concat sep l.

(** *** Plain objects with string values

    A [Record<string, string>] built from the literal [{}] is kept as the
    list of its own properties in creation order; keys are unique. *)
Definition JsObject : Type := list (string * string).

(** [CreateDataProperty]: overwrite the value of an existing own property in
    place, or create the property last. *)
Fixpoint js_define (o : JsObject) (k v : string) : JsObject :=
  match o with
  | [] => [(k, v)]
  | (k', v') :: r =>
      if k' =? k then (k', v) :: r else (k', v') :: js_define r k v
  end.

(** [o[k] = v] for a string [v] on an object whose prototype is
    [Object.prototype]: the one inherited setter, [__proto__], ignores a
    value that is neither an object nor [null] and creates nothing; every
    other key defines an own property. *)
Definition js_assign (o : JsObject) (k v : string) : JsObject :=
  if k =? "__proto__" then o else js_define o k v.

(** [o[k]] restricted to own properties. *)
Fixpoint js_get (o : JsObject) (k : string) : option string :=
  match o with
  | [] => None
  | (k', v) :: r => if k' =? k then Some v else js_get r k
  end.

(** Decimal digits of a property key. *)
Definition digit_of (c : ascii) : option N :=
  let n := N_of_ascii c in
  if ((48 <=? n) && (n <=? 57))%N then Some (n - 48)%N else None.

Fixpoint parse_digits (acc : N) (s : string) : option N :=
  match s with
  | EmptyString => Some acc
  | String c r =>
      match digit_of c with
      | Some d => parse_digits (acc * 10 + d)%N r
      | None => None
      end
  end.

(** A key is an array index when it is the canonical decimal spelling of an
    integer in [0, 2^32 - 2]. *)
Definition array_index (k : string) : option N :=
  match k with
  | EmptyString => None
  | String c r =>
      if (Ascii.eqb c "0" && negb (r =? ""))%bool then None
      else
        match parse_digits 0 k with
        | Some n => if (n <? 4294967295)%N then Some n else None
        | None => None
        end
  end.

Definition is_index (k : string) : bool :=
  match array_index k with
  | Some _ => true
  | None => false
  end.

Definition index_value (k : string) : N :=
  match array_index k with
  | Some n => n
  | None => 0%N
  end.

(** Ascending numeric order on keys that are array indices. *)
Fixpoint insert_index (k : string) (l : list string) : list string :=
  match l with
  | [] => [k]
  | x :: r =>
      if (index_value k <=? index_value x)%N then k :: l
      else x :: insert_index k r
  end.

Fixpoint sort_index (l : list string) : list string :=
  match l with
  | [] => []
  | k :: r => insert_index k (sort_index r)
  end.

(** [OrdinaryOwnPropertyKeys] on a list of keys in creation order: array
    indices first, in ascending numeric order, then the other keys in
    creation order. *)
Definition own_key_order (ks : list string) : list string :=
  sort_index (filter is_index ks) ++ filter (fun k => negb (is_index k)) ks.

(** [Object.keys(o)] *)
Definition Object_keys (o : JsObject) : list string :=
  own_key_order (map fst o).

(** [Object.entries(o)] *)
Definition Object_entries (o : JsObject) : list (string * string) :=
  map (fun k => (k, match js_get o k with Some v => v | None => "" end))
      (Object_keys o).

(** [{ ...o }]: a fresh object receiving the own properties of [o] in
    [Object.entries] order. *)
Definition js_spread (o : JsObject) : JsObject :=
  fold_left (fun acc kv => js_define acc (fst kv) (snd kv)) (Object_entries o) [].

(** *** Vocabulary of the properties *)

(** The object holding [f k] under each key [k] of [ks], created in the
    order of [ks]. *)
Definition tabulate (f : string -> string) (ks : list string) : JsObject :=
  map (fun k => (k, f k)) ks.

Definition index_le (x y : string) : Prop := (index_value x <= index_value y)%N.

(** The distinct names of a list, each at the place of its first
    occurrence. *)
Fixpoint first_occurrences (ks : list string) : list string :=
  match ks with
  | [] => []
  | k :: r => k :: filter (fun x => negb (x =? k)) (first_occurrences r)
  end.

(** [k] is in [l], as a test. *)
Definition mem (k : string) (l : list string) : bool := existsb (String.eqb k) l.

End Js.

(** ** [hooks/tools.ts]: the tool reconciler *)

Module Tools.
Import Js.

(** The fields of [ManagedTool] that the hooks read.  The type itself is
    declared in the API client; every field but the name is optional there,
    which is what lets [handleToggle] store the literal [{ name }]. *)
Record ManagedTool : Type := mkManagedTool {
  t_name : string;
  is_visible : option bool;
  is_available : option bool;
  is_auth_required : option bool;
  token : option string
}.

(** The object literal [{ name }]. *)
Definition tool_ref (name : string) : ManagedTool :=
  {| t_name := name; is_visible := None; is_available := None;
     is_auth_required := None; token := None |}.

Record Agent : Type := mkAgent {
  agent_tools : option (list string)
}.

(** [agent?.tools] *)
Definition requiredTools (agent : option Agent) : option (list string) :=
  match agent with
  | Some a => agent_tools a
  | None => None
  end.

(** The filter callback of [availableTools]: an array is truthy, so
    [!requiredTools] holds only when the allowlist is absent. *)
Definition is_selectable (required : option (list string)) (t : ManagedTool) : bool :=
  truthy_bool (is_visible t) &&
  truthy_bool (is_available t) &&
  match required with
  | None => true
  | Some rts => existsb (fun rt => rt =? t_name t) rts
  end.

Definition availableTools (agent : option Agent)
    (managedTools : option (list ManagedTool)) : list ManagedTool :=
  filter (is_selectable (requiredTools agent)) (or_empty managedTools).

(** [useUnauthedTools] *)
Definition unauthedTools (tools : option (list ManagedTool)) : list ManagedTool :=
  match tools with
  | Some ts => filter (fun tool => truthy_bool (is_auth_required tool)) ts
  | None => []
  end.

Definition isToolAuthRequired (tools : option (list ManagedTool)) : bool :=
  Nat.ltb 0 (List.length (unauthedTools tools)).

(** *** Session stores *)

(** The configurable parameters touched by the two files; [Partial] of it
    has the same shape, an absent field being [None]. *)
Record Params : Type := mkParams {
  tools : option (list ManagedTool);
  fileIds : option (list string);
  deploymentConfig : option string
}.

Definition override {A : Type} (patch old : option A) : option A :=
  match patch with
  | Some v => Some v
  | None => old
  end.

(** Modelled from the spec: the params store's [setParams], which is not in
    the two files: merge-patch, last write wins per field. *)
Definition merge_params (patch old : Params) : Params :=
  {| tools := override (tools patch) (tools old);
     fileIds := override (fileIds patch) (fileIds old);
     deploymentConfig := override (deploymentConfig patch) (deploymentConfig old) |}.

Record Session : Type := mkSession {
  params : Params;
  composerFiles : list string
}.

Definition setParams (patch : Params) (s : Session) : Session :=
  {| params := merge_params patch (params s); composerFiles := composerFiles s |}.

(** Modelled from the spec: the files store's [clearComposerFiles], which is
    not in the two files: it empties the files staged for upload. *)
Definition clearComposerFiles (s : Session) : Session :=
  {| params := params s; composerFiles := [] |}.

(** [params.tools ?? []] *)
Definition enabledTools (s : Session) : list ManagedTool :=
  or_empty (tools (params s)).

(** [name === defaultFileLoaderTool?.name] *)
Definition is_default_file_loader (defaultFileLoaderTool : option ManagedTool)
    (name : string) : bool :=
  match defaultFileLoaderTool with
  | Some d => name =? t_name d
  | None => false
  end.

Definition handleToggle (defaultFileLoaderTool : option ManagedTool)
    (name : string) (checked : bool) (s : Session) : Session :=
  let newTools :=
    if checked then enabledTools s ++ [tool_ref name]
    else filter (fun enabledTool => negb (t_name enabledTool =? name)) (enabledTools s) in
  let newParams := {| tools := Some newTools; fileIds := None; deploymentConfig := None |} in
  if is_default_file_loader defaultFileLoaderTool name then
    setParams {| tools := tools newParams; fileIds := Some [];
                 deploymentConfig := deploymentConfig newParams |}
              (clearComposerFiles s)
  else setParams newParams s.

Definition enabled_names (s : Session) : list string :=
  map t_name (enabledTools s).

(** *** Vocabulary of the properties *)

(** [kept] is [all] with exactly the elements satisfying [P] retained, in
    the order of [all]. *)
Inductive Selects {A : Type} (P : A -> Prop) : list A -> list A -> Prop :=
  | Selects_nil : Selects P [] []
  | Selects_keep x all kept : P x -> Selects P all kept -> Selects P (x :: all) (x :: kept)
  | Selects_drop x all kept : ~ P x -> Selects P all kept -> Selects P (x :: all) kept.

(** The filter rule of the reconciler, as a proposition on the agent's
    [tools] field ([None] when the field, or the agent, is absent). *)
Definition Selectable (allowlist : option (list string)) (t : ManagedTool) : Prop :=
  is_visible t = Some true /\
  is_available t = Some true /\
  match allowlist with
  | None => True
  | Some names => In (t_name t) names
  end.

(** The catalog of three tools, all visible and available, one of which
    requires authentication. *)
Definition three_tools : list ManagedTool :=
  [ {| t_name := "web_search"; is_visible := Some true; is_available := Some true;
       is_auth_required := Some false; token := None |};
    {| t_name := "calculator"; is_visible := Some true; is_available := Some true;
       is_auth_required := Some false; token := None |};
    {| t_name := "drive"; is_visible := Some true; is_available := Some true;
       is_auth_required := Some true; token := None |} ].

(** A session with one enabled tool and nothing staged. *)
Definition one_tool_session : Session :=
  {| params := {| tools := Some [tool_ref "web_search"]; fileIds := None;
                  deploymentConfig := None |};
     composerFiles := [] |}.

(** I1: at most one entry per tool name. *)
Definition UniqueNames (s : Session) : Prop := NoDup (enabled_names s).

(** *** [useShowUnauthedToolsModal] *)

(** Modelled from the spec: the persisted dismissal flag read through
    [useLocalStorageValue] with [defaultValue: false]; the hook itself is a
    library. The cell is [None] until something was stored. *)
Definition hasDismissed (stored : option bool) : bool := truthy_bool stored.

(** [show: !hasDismissed && isToolAuthRequired] *)
Definition show (stored : option bool) (data : option (list ManagedTool)) : bool :=
  negb (hasDismissed stored) && isToolAuthRequired data.

(** [onDismissed: () => set(true)] *)
Definition onDismissed (stored : option bool) : option bool := Some true.

End Tools.

(** ** [hooks/tools.ts]: the Google Drive picker *)

Module Picker.
Import Js Tools.

(** A picked document; only [type] is inspected, [id] stands for the rest of
    the record and travels with it unchanged. *)
Record Doc : Type := mkDoc {
  doc_type : string;
  doc_id : string
}.

Record PickerCallback : Type := mkPickerCallback {
  action : string;
  docs : option (list Doc)
}.

(** The argument of [openPicker]. *)
Record PickerConfiguration (E : Type) : Type := mkPickerConfiguration {
  clientId : string;
  developerKey : string;
  picker_token : string;
  setIncludeFolders : bool;
  setSelectFolderEnabled : bool;
  showUploadView : bool;
  showUploadFolders : bool;
  supportDrives : bool;
  multiselect : bool;
  callbackFunction : PickerCallback -> list E
}.

Arguments mkPickerConfiguration {E}.
Arguments callbackFunction {E}.

(** Calls made into the collaborators of the hook, in program order. *)
#[warnings="-register-all"]
Inductive Effect : Type :=
  | Info (message : string)
  | CallbackFunction (data : PickerCallback)
  | OpenPicker (configuration : PickerConfiguration Effect).

Definition mixed_notice : string := "Please select either files or folders.".
Definition too_many_notice : string := "You can only select a maximum of 5 files.".
Definition unavailable_notice : string := "Google Drive is not available at the moment.".

Definition is_folder (doc : Doc) : bool := doc_type doc =? "folder".

Definition handleCallback (data : PickerCallback) : list Effect :=
  match docs data with
  | None => []
  | Some ds =>
      let folders := filter is_folder ds in
      let files := filter (fun doc => negb (is_folder doc)) ds in
      if Nat.ltb 0 (List.length folders) && Nat.ltb 0 (List.length files) then
        [Info mixed_notice]
      else if Nat.ltb 5 (List.length files) then
        [Info too_many_notice]
      else [CallbackFunction data]
  end.

Section OpenGoogleDrivePicker.

(** The tool-id constant imported from [@/constants]. *)
Variable TOOL_GOOGLE_DRIVE_ID : string.

(** [toolsData?.find((tool) => tool.name === TOOL_GOOGLE_DRIVE_ID)] *)
Definition googleDriveTool (toolsData : option (list ManagedTool)) : option ManagedTool :=
  match toolsData with
  | Some ts => find (fun tool => t_name tool =? TOOL_GOOGLE_DRIVE_ID) ts
  | None => None
  end.

(** [googleDriveTool?.token || ''] *)
Definition token_or_empty (tool : option ManagedTool) : string :=
  match tool with
  | Some t =>
      match token t with
      | Some v => v
      | None => ""
      end
  | None => ""
  end.

(** The string behind an environment entry once it is known to be truthy. *)
Definition narrowed (entry : option string) : string :=
  match entry with
  | Some v => v
  | None => ""
  end.

(** What the function returned by [useOpenGoogleDrivePicker] does when it is
    called, given the two environment entries and the tool list. *)
Definition useOpenGoogleDrivePicker
    (googleDriveClientId googleDriveDeveloperKey : option string)
    (toolsData : option (list ManagedTool)) : list Effect :=
  if negb (truthy_string googleDriveClientId)
     || negb (truthy_string googleDriveDeveloperKey) then
    [Info unavailable_notice]
  else
    [OpenPicker
       {| clientId := narrowed googleDriveClientId;
          developerKey := narrowed googleDriveDeveloperKey;
          picker_token := token_or_empty (googleDriveTool toolsData);
          setIncludeFolders := true;
          setSelectFolderEnabled := true;
          showUploadView := false;
          showUploadFolders := false;
          supportDrives := true;
          multiselect := true;
          callbackFunction := handleCallback |}].

End OpenGoogleDrivePicker.

Definition opens_picker (e : Effect) : bool :=
  match e with
  | OpenPicker _ => true
  | _ => false
  end.

Definition is_notice (e : Effect) : bool :=
  match e with
  | Info _ => true
  | _ => false
  end.

Definition invokes_continuation (e : Effect) : bool :=
  match e with
  | CallbackFunction _ => true
  | _ => false
  end.

(** *** Vocabulary of the properties *)

Definition HasFolder (ds : list Doc) : Prop :=
  exists doc, In doc ds /\ doc_type doc = "folder".

Definition HasFile (ds : list Doc) : Prop :=
  exists doc, In doc ds /\ doc_type doc <> "folder".

(** Number of documents that are not folders. *)
Fixpoint file_count (ds : list Doc) : nat :=
  match ds with
  | [] => 0
  | doc :: r => if doc_type doc =? "folder" then file_count r else S (file_count r)
  end.

(** A configuration entry is missing when it is unset or empty. *)
Definition Missing (entry : option string) : Prop :=
  entry = None \/ entry = Some "".

(** Sample picker results. *)
Definition empty_result : PickerCallback :=
  {| action := "picked"; docs := Some [] |}.

Definition mixed_result : PickerCallback :=
  {| action := "picked";
     docs := Some [ {| doc_type := "folder"; doc_id := "d1" |};
                    {| doc_type := "document"; doc_id := "d2" |} ] |}.

End Picker.

(** ** [components/EditEnvVariablesButton.tsx]: the deployment form *)

Module EnvForm.
Import Js Tools.

Record Deployment : Type := mkDeployment {
  d_name : string;
  env_vars : list string
}.

(** The three [useState] cells of [EditEnvVariablesModal]. *)
Record FormState : Type := mkFormState {
  deployment : option string;
  envVariables : JsObject;
  isSubmitting : bool
}.

(** Calls made by [handleSubmit] outside the component, in program order. *)
Inductive Effect : Type :=
  | SetParams (patch : Params)
  | OnClose.

(** [deployments?.find(({ name }) => name === wanted)] *)
Definition selectedDeployment (deployments : option (list Deployment))
    (wanted : string) : option Deployment :=
  match deployments with
  | Some ds => find (fun d => d_name d =? wanted) ds
  | None => None
  end.

(** [selectedDeployment?.env_vars.reduce((acc, envVar) => { acc[envVar] = '';
    return acc; }, {}) ?? {}] *)
Definition emptyEnvVariables (selected : option Deployment) : JsObject :=
  match selected with
  | Some d => fold_left (fun acc envVar => js_assign acc envVar "") (env_vars d) []
  | None => []
  end.

(** The state the modal mounts with. *)
Definition initialState (deployments : option (list Deployment))
    (defaultDeployment : string) : FormState :=
  {| deployment := Some defaultDeployment;
     envVariables := emptyEnvVariables (selectedDeployment deployments defaultDeployment);
     isSubmitting := false |}.

Definition handleDeploymentChange (deployments : option (list Deployment))
    (newDeployment : string) (st : FormState) : FormState :=
  {| deployment := Some newDeployment;
     envVariables := emptyEnvVariables (selectedDeployment deployments newDeployment);
     isSubmitting := isSubmitting st |}.

(** [setEnvVariables({ ...envVariables, [envVar]: value })] *)
Definition handleEnvVariableChange (envVar value : string) (st : FormState) : FormState :=
  {| deployment := deployment st;
     envVariables := js_define (js_spread (envVariables st)) envVar value;
     isSubmitting := isSubmitting st |}.

(** [Object.entries(envVariables).map(([k, v]) => k + '=' + v).join(';')] *)
Definition serialize (o : JsObject) : string :=
  join ";" (map (fun kv : string * string => (fst kv ++ "=" ++ snd kv)%string)
                (Object_entries o)).

Definition handleSubmit (st : FormState) : FormState * list Effect :=
  if negb (truthy_string (deployment st)) then (st, [])
  else
    ({| deployment := deployment st;
        envVariables := envVariables st;
        isSubmitting := false |},
     [SetParams {| tools := None; fileIds := None;
                   deploymentConfig := Some (serialize (envVariables st)) |};
      OnClose]).

(** A run of field edits, oldest first. *)
Definition apply_edits (edits : list (string * string)) (st : FormState) : FormState :=
  fold_left (fun s e => handleEnvVariableChange (fst e) (snd e) s) edits st.

(** *** Vocabulary of the properties *)

(** The value a field holds after a run of edits: that of the last edit of
    this field, the empty string when there was none. *)
Definition edited_value (edits : list (string * string)) (k : string) : string :=
  fold_left (fun acc e => if fst e =? k then snd e else acc) edits "".

(** The same, starting from the values [f]. *)
Definition edits_from (f : string -> string) (edits : list (string * string))
    (k : string) : string :=
  fold_left (fun acc e => if fst e =? k then snd e else acc) edits (f k).

(** [key1=value1;key2=value2;...] over the given keys, in the given order. *)
Definition config_line (value : string -> string) (ks : list string) : string :=
  join ";" (map (fun k => (k ++ "=" ++ value k)%string) ks).

(** A patch that writes the one field [deploymentConfig]. *)
Definition config_patch (line : string) : Params :=
  {| tools := None; fileIds := None; deploymentConfig := Some line |}.

(** Sample catalogs. *)
Definition prod_catalog : option (list Deployment) :=
  Some [ {| d_name := "prod"; env_vars := ["API_KEY"; "REGION"] |} ].

Definition numbered_catalog : option (list Deployment) :=
  Some [ {| d_name := "prod"; env_vars := ["REGION"; "1"] |} ].

Definition proto_catalog : option (list Deployment) :=
  Some [ {| d_name := "prod"; env_vars := ["__proto__"; "API_KEY"] |} ].

(** *** The rest of the component *)



(** [handleClick] of [EditEnvVariablesButton]: the state of the modal it
    opens, mounted with [defaultDeployment=""]. *)
Definition handleClick (deployments : option (list Deployment)) : FormState :=
  initialState deployments "".

(** Every name but [__proto__]. *)
Definition not_proto (k : string) : bool := negb (k =? "__proto__").

(** [c] occurs in [s]. *)
Fixpoint has_char (c : ascii) (s : string) : bool :=
  match s with
  | EmptyString => false
  | String c' r => Ascii.eqb c' c || has_char c r
  end.

(** A field whose name holds neither [;] nor [=] and whose value holds no
    [;]. *)
Definition clean_entry (kv : string * string) : Prop :=
  has_char ";" (fst kv) = false /\
  has_char "=" (fst kv) = false /\
  has_char ";" (snd kv) = false.

End EnvForm.

(** * Properties of the tool reconciler *)

Module ToolsFacts.
Import Js Tools.

Lemma is_selectable_iff (allowlist : option (list string)) t :
  is_selectable allowlist t = true <-> Selectable allowlist t.
Proof.
  unfold is_selectable, Selectable.
  destruct (is_visible t) as [[|]|], (is_available t) as [[|]|]; simpl;
    try (split; [discriminate | intros (Hv & Ha & _); discriminate]).
  destruct allowlist as [names|].
  - rewrite existsb_exists. split.
    + intros (rt & Hin & Heq). apply String.eqb_eq in Heq. subst rt. auto.
    + intros (_ & _ & Hin). exists (t_name t). split; [exact Hin | apply String.eqb_refl].
  - split; auto.
Qed.

Lemma filter_selects {A : Type} (f : A -> bool) (P : A -> Prop) :
  (forall x, f x = true <-> P x) ->
  forall l, Selects P l (filter f l).
Proof.
  intros Hf l. induction l as [|x l IH]; simpl.
  - constructor.
  - destruct (f x) eqn:E.
    + apply Selects_keep; [apply Hf; exact E | exact IH].
    + apply Selects_drop; [| exact IH].
      intros HP. apply Hf in HP. congruence.
Qed.

(** [Selects] determines its result: the relation is a specification, not a
    family of admissible answers. *)
Lemma Selects_functional {A : Type} (P : A -> Prop) l k1 k2 :
  Selects P l k1 -> Selects P l k2 -> k1 = k2.
Proof.
  intros H1. revert k2.
  induction H1 as [|x l k Hx _ IH|x l k Hx _ IH]; intros k2 H2; inversion H2; subst.
  - reflexivity.
  - f_equal. apply IH. assumption.
  - contradiction.
  - contradiction.
  - apply IH. assumption.
Qed.

(** C1. For every catalog and every agent (absent, or with its [tools]
    field absent or present), [availableTools] keeps exactly the catalog
    tools that are visible, available and, when there is an allowlist, named
    in it, in catalog order; an empty or absent catalog, and an empty
    allowlist, give the empty sequence. *)
Theorem availableTools_selects (allowlist : option (list string))
    (catalog : list ManagedTool) (agent : option Agent) :
  Selects (Selectable allowlist) catalog
    (availableTools (Some {| agent_tools := allowlist |}) (Some catalog))
  /\ Selects (Selectable None) catalog (availableTools None (Some catalog))
  /\ availableTools agent (Some []) = []
  /\ availableTools agent None = []
  /\ availableTools (Some {| agent_tools := Some [] |}) (Some catalog) = [].
Proof.
  split; [| split; [| split; [| split]]]; try reflexivity.
  - unfold availableTools. simpl. apply filter_selects.
    intros t. apply is_selectable_iff.
  - unfold availableTools. simpl. apply filter_selects.
    intros t. apply (is_selectable_iff None).
  - unfold availableTools. simpl.
    induction catalog as [|t l IH]; simpl; [reflexivity |].
    unfold is_selectable at 1. simpl. rewrite !andb_false_r. exact IH.
Qed.

(** The first scenario of the spec: with the allowlist [web_search] only
    that tool is available, and [drive] is the tool that needs signing in. *)
Lemma availableTools_scenario :
  map t_name (availableTools (Some {| agent_tools := Some ["web_search"] |})
                (Some three_tools)) = ["web_search"]
  /\ map t_name (availableTools None (Some three_tools))
     = ["web_search"; "calculator"; "drive"]
  /\ map t_name (unauthedTools (Some three_tools)) = ["drive"].
Proof.
  repeat split.
Qed.


(** *** [handleToggle] *)

Lemma handleToggle_enabledTools dflt name checked s :
  enabledTools (handleToggle dflt name checked s) =
  if checked then enabledTools s ++ [tool_ref name]
  else filter (fun enabledTool => negb (t_name enabledTool =? name)) (enabledTools s).
Proof.
  unfold handleToggle.
  destruct (is_default_file_loader dflt name); reflexivity.
Qed.

Lemma names_filter_other name (l : list ManagedTool) :
  map t_name (filter (fun enabledTool => negb (t_name enabledTool =? name)) l) =
  filter (fun n => negb (n =? name)) (map t_name l).
Proof.
  induction l as [|t l IH]; simpl; [reflexivity |].
  destruct (t_name t =? name); simpl; rewrite IH; reflexivity.
Qed.

Lemma filter_other_absent name (l : list ManagedTool) :
  ~ In name (map t_name l) ->
  filter (fun enabledTool => negb (t_name enabledTool =? name)) l = l.
Proof.
  induction l as [|t l IH]; simpl; intros Hn; [reflexivity |].
  destruct (t_name t =? name) eqn:E.
  - apply String.eqb_eq in E. exfalso. apply Hn. left. exact E.
  - simpl. f_equal. apply IH. intros Hin. apply Hn. right. exact Hin.
Qed.

Lemma NoDup_filter_names (p : string -> bool) (l : list string) :
  NoDup l -> NoDup (filter p l).
Proof.
  induction 1 as [|x l Hx Hl IH]; simpl; [constructor |].
  destruct (p x); [| exact IH].
  constructor; [| exact IH].
  intros Hin. apply filter_In in Hin. tauto.
Qed.

Lemma NoDup_snoc (x : string) (l : list string) :
  NoDup l -> ~ In x l -> NoDup (l ++ [x]).
Proof.
  intros Hl Hx.
  apply (Permutation_NoDup (l := x :: l)).
  - apply Permutation_cons_append.
  - constructor; assumption.
Qed.

(** C2, as the code has it. Toggling on always appends a fresh [{ name }]
    entry, also when the name is already enabled; so a toggle keeps the
    names of the enabled tools pairwise distinct when it is a toggle off, or
    a toggle on of a name that is not yet enabled. *)
Theorem handleToggle_unique_names dflt name checked s :
  UniqueNames s ->
  checked = false \/ ~ In name (enabled_names s) ->
  UniqueNames (handleToggle dflt name checked s)
  /\ enabled_names (handleToggle dflt name true s) = enabled_names s ++ [name].
Proof.
  unfold UniqueNames, enabled_names. intros Hu Hc. split.
  - rewrite handleToggle_enabledTools.
    destruct checked.
    + destruct Hc as [Hc | Hc]; [discriminate |].
      rewrite map_app. simpl. apply NoDup_snoc; assumption.
    + rewrite names_filter_other. apply NoDup_filter_names. exact Hu.
  - rewrite handleToggle_enabledTools, map_app. reflexivity.
Qed.

Lemma handleToggle_unique_names_witness :
  UniqueNames (handleToggle None "drive" true one_tool_session)
  /\ enabled_names (handleToggle None "drive" true one_tool_session)
     = ["web_search"; "drive"].
Proof.
  apply (handleToggle_unique_names None "drive" true one_tool_session).
  - unfold UniqueNames. simpl. constructor; [intros [] | constructor].
  - right. simpl. intros [H | []]. discriminate H.
Defined.

(** Toggling on a name that is already enabled leaves two entries with that
    name: the invariant does not survive every toggle. *)
Lemma handleToggle_duplicate_toggle_on :
  UniqueNames one_tool_session
  /\ enabled_names (handleToggle None "web_search" true one_tool_session)
     = ["web_search"; "web_search"]
  /\ ~ UniqueNames (handleToggle None "web_search" true one_tool_session).
Proof.
  split; [| split].
  - unfold UniqueNames. simpl. constructor; [intros [] | constructor].
  - reflexivity.
  - unfold UniqueNames. simpl. intros H. inversion H as [|x l Hx Hl]; subst.
    apply Hx. left. reflexivity.
Qed.

(** C8. From a set that does not contain [name], toggling [name] on and
    then off gives back the enabled tools it started from. *)
Theorem handleToggle_on_then_off dflt name s :
  ~ In name (enabled_names s) ->
  enabledTools (handleToggle dflt name false (handleToggle dflt name true s))
  = enabledTools s.
Proof.
  intros Hn.
  rewrite handleToggle_enabledTools, handleToggle_enabledTools.
  rewrite filter_app. simpl. rewrite String.eqb_refl. simpl.
  rewrite app_nil_r. apply filter_other_absent. exact Hn.
Qed.

Lemma handleToggle_on_then_off_witness :
  enabledTools (handleToggle None "drive" false
                  (handleToggle None "drive" true one_tool_session))
  = [tool_ref "web_search"].
Proof.
  apply (handleToggle_on_then_off None "drive" one_tool_session).
  simpl. intros [H | []]. discriminate H.
Defined.

(** C9. Toggling the default file loader off empties the staged files and
    the [fileIds] parameter, whatever they held, and leaves no enabled tool
    with that name. *)
Theorem handleToggle_default_loader_off (d : ManagedTool) (s : Session) :
  let s' := handleToggle (Some d) (t_name d) false s in
  composerFiles s' = []
  /\ fileIds (params s') = Some []
  /\ ~ In (t_name d) (enabled_names s').
Proof.
  unfold handleToggle. simpl. rewrite String.eqb_refl. simpl.
  repeat split.
  unfold enabled_names, enabledTools. simpl.
  rewrite names_filter_other. intros Hin.
  apply filter_In in Hin. destruct Hin as [_ Hne].
  rewrite String.eqb_refl in Hne. discriminate Hne.
Qed.

(** The clearing is decided by the name alone: the direction of the toggle
    plays no part in it. *)
Lemma handleToggle_clears_by_name dflt name checked s :
  let s' := handleToggle dflt name checked s in
  if is_default_file_loader dflt name
  then composerFiles s' = [] /\ fileIds (params s') = Some []
  else composerFiles s' = composerFiles s /\ fileIds (params s') = fileIds (params s).
Proof.
  unfold handleToggle.
  destruct (is_default_file_loader dflt name); simpl; split; reflexivity.
Qed.

(** C10. Toggling the default file loader on also empties the staged files
    and [fileIds], whatever they held: in either direction the toggle leaves
    the same (empty) files and [fileIds] behind. *)
Theorem handleToggle_default_loader_on (d : ManagedTool) (checked : bool) (s : Session) :
  let on := handleToggle (Some d) (t_name d) true s in
  let any := handleToggle (Some d) (t_name d) checked s in
  composerFiles on = []
  /\ fileIds (params on) = Some []
  /\ composerFiles any = composerFiles on
  /\ fileIds (params any) = fileIds (params on).
Proof.
  unfold handleToggle. simpl. rewrite String.eqb_refl. simpl.
  repeat split.
Qed.

End ToolsFacts.

(** * Properties of the Drive picker *)

Module PickerFacts.
Import Js Tools Picker.

Lemma file_count_filter ds :
  List.length (filter (fun doc => negb (is_folder doc)) ds) = file_count ds.
Proof.
  unfold is_folder.
  induction ds as [|doc r IH]; simpl; [reflexivity |].
  destruct (doc_type doc =? "folder"); simpl; rewrite IH; reflexivity.
Qed.

Lemma HasFolder_filter ds :
  HasFolder ds <-> (0 < List.length (filter is_folder ds))%nat.
Proof.
  unfold HasFolder, is_folder. split.
  - intros (doc & Hin & Hty).
    assert (Hf : In doc (filter (fun doc => doc_type doc =? "folder") ds)).
    { apply filter_In. split; [exact Hin | apply String.eqb_eq; exact Hty]. }
    destruct (filter (fun doc => doc_type doc =? "folder") ds); [destruct Hf | simpl; lia].
  - intros Hlen.
    destruct (filter (fun doc => doc_type doc =? "folder") ds) as [|doc r] eqn:E;
      [simpl in Hlen; lia |].
    assert (Hf : In doc (filter (fun doc => doc_type doc =? "folder") ds))
      by (rewrite E; left; reflexivity).
    apply filter_In in Hf. destruct Hf as [Hin Hty].
    exists doc. split; [exact Hin | apply String.eqb_eq; exact Hty].
Qed.

Lemma HasFile_count ds : HasFile ds <-> (0 < file_count ds)%nat.
Proof.
  unfold HasFile. induction ds as [|doc r IH]; simpl.
  - split; [intros (d & [] & _) | lia].
  - destruct (doc_type doc =? "folder") eqn:E.
    + apply String.eqb_eq in E. rewrite <- IH. split.
      * intros (d & [Hd | Hd] & Hty); [subst d; contradiction | exists d; auto].
      * intros (d & Hd & Hty). exists d. auto.
    + apply String.eqb_neq in E. split; [lia |].
      intros _. exists doc. auto.
Qed.

(** The three outcomes of [handleCallback] on a present [docs], by the two
    quantities the code tests. *)
Lemma handleCallback_cases data ds :
  docs data = Some ds ->
  handleCallback data =
    if Nat.ltb 0 (List.length (filter is_folder ds)) && Nat.ltb 0 (file_count ds)
    then [Info mixed_notice]
    else if Nat.ltb 5 (file_count ds) then [Info too_many_notice]
    else [CallbackFunction data].
Proof.
  intros Hd. unfold handleCallback. rewrite Hd, file_count_filter. reflexivity.
Qed.

(** C3, as the code has it. A result without [docs] is dropped silently: no
    call at all, so neither the continuation nor the notifier is reached.
    A result whose [docs] is the empty array is not dropped (an empty array
    is truthy): it is handed to the continuation, without a notice. *)
Theorem handleCallback_absent_or_empty (act : string) :
  handleCallback {| action := act; docs := None |} = []
  /\ handleCallback {| action := act; docs := Some [] |}
     = [CallbackFunction {| action := act; docs := Some [] |}].
Proof.
  split; reflexivity.
Qed.

(** An empty [docs] reaches the continuation. *)
Lemma handleCallback_empty_docs_forwarded :
  docs empty_result = Some []
  /\ handleCallback empty_result = [CallbackFunction empty_result]
  /\ existsb invokes_continuation (handleCallback empty_result) = true.
Proof.
  repeat split.
Qed.

(** C4. On a result that carries [docs]: folders together with other
    documents give the mixed-selection notice and nothing else; failing
    that, more than five non-folder documents give the too-many-files notice
    and nothing else; failing both, the continuation receives the result
    itself. *)
Theorem handleCallback_verdict (data : PickerCallback) (ds : list Doc) :
  docs data = Some ds ->
  (HasFolder ds /\ HasFile ds -> handleCallback data = [Info mixed_notice])
  /\ (~ (HasFolder ds /\ HasFile ds) -> (5 < file_count ds)%nat ->
      handleCallback data = [Info too_many_notice])
  /\ (~ (HasFolder ds /\ HasFile ds) -> (file_count ds <= 5)%nat ->
      handleCallback data = [CallbackFunction data]).
Proof.
  intros Hd. rewrite (handleCallback_cases data ds Hd).
  destruct (Nat.ltb_spec 0 (List.length (filter is_folder ds))) as [Efo | Efo];
  destruct (Nat.ltb_spec 0 (file_count ds)) as [Efi | Efi]; simpl.
  - apply HasFolder_filter in Efo. apply HasFile_count in Efi.
    split; [reflexivity |]. split; intros Hn; exfalso; apply Hn; split; assumption.
  - split; [| split].
    + intros [_ Hf]. apply HasFile_count in Hf. lia.
    + intros _ H5. lia.
    + intros _ _. replace (file_count ds) with 0%nat by lia. reflexivity.
  - split; [| split].
    + intros [Hf _]. apply HasFolder_filter in Hf. lia.
    + intros _ H5. apply Nat.ltb_lt in H5. rewrite H5. reflexivity.
    + intros _ H5. apply Nat.ltb_ge in H5. rewrite H5. reflexivity.
  - split; [| split].
    + intros [Hf _]. apply HasFolder_filter in Hf. lia.
    + intros _ H5. lia.
    + intros _ _. replace (file_count ds) with 0%nat by lia. reflexivity.
Qed.

Lemma handleCallback_verdict_witness :
  handleCallback mixed_result = [Info mixed_notice].
Proof.
  refine (proj1 (handleCallback_verdict mixed_result _ eq_refl) _).
  split.
  - exists {| doc_type := "folder"; doc_id := "d1" |}.
    split; [left; reflexivity | reflexivity].
  - exists {| doc_type := "document"; doc_id := "d2" |}.
    split; [right; left; reflexivity | discriminate].
Defined.

(** A selection made of folders only is always forwarded. *)
Lemma handleCallback_all_folders data ds :
  docs data = Some ds ->
  Forall (fun doc => doc_type doc = "folder") ds ->
  handleCallback data = [CallbackFunction data].
Proof.
  intros Hd Hall.
  assert (Hc : file_count ds = 0%nat).
  { clear Hd. induction Hall as [|doc r Hty _ IH]; simpl; [reflexivity |].
    rewrite Hty. simpl. exact IH. }
  rewrite (handleCallback_cases data ds Hd), Hc, andb_false_r. reflexivity.
Qed.

(** C5. With the client id or the developer key unset or empty, calling the
    returned function sends the unavailability notice and does nothing else:
    the picker is not opened. *)
Theorem useOpenGoogleDrivePicker_unavailable
    (TOOL_GOOGLE_DRIVE_ID : string)
    (googleDriveClientId googleDriveDeveloperKey : option string)
    (toolsData : option (list ManagedTool)) :
  Missing googleDriveClientId \/ Missing googleDriveDeveloperKey ->
  useOpenGoogleDrivePicker TOOL_GOOGLE_DRIVE_ID
    googleDriveClientId googleDriveDeveloperKey toolsData
  = [Info unavailable_notice]
  /\ existsb opens_picker
       (useOpenGoogleDrivePicker TOOL_GOOGLE_DRIVE_ID
          googleDriveClientId googleDriveDeveloperKey toolsData) = false.
Proof.
  intros Hm.
  assert (Hf : negb (truthy_string googleDriveClientId)
               || negb (truthy_string googleDriveDeveloperKey) = true).
  { apply orb_true_iff.
    destruct Hm as [[H | H] | [H | H]]; subst; simpl; auto. }
  unfold useOpenGoogleDrivePicker. rewrite Hf. split; reflexivity.
Qed.

Lemma useOpenGoogleDrivePicker_unavailable_witness :
  useOpenGoogleDrivePicker "google_drive" (Some "client-id") (Some "") None
  = [Info unavailable_notice]
  /\ existsb opens_picker
       (useOpenGoogleDrivePicker "google_drive" (Some "client-id") (Some "") None)
     = false.
Proof.
  apply (useOpenGoogleDrivePicker_unavailable "google_drive" (Some "client-id") (Some "") None).
  right. right. reflexivity.
Defined.

(** With both entries set, the same call does open the picker, once, with
    [handleCallback] installed as its callback. *)
Lemma useOpenGoogleDrivePicker_opens TOOL_GOOGLE_DRIVE_ID cid key toolsData :
  cid <> "" -> key <> "" ->
  exists configuration,
    useOpenGoogleDrivePicker TOOL_GOOGLE_DRIVE_ID (Some cid) (Some key) toolsData
    = [OpenPicker configuration]
    /\ clientId _ configuration = cid
    /\ developerKey _ configuration = key
    /\ callbackFunction configuration = handleCallback.
Proof.
  intros Hc Hk. unfold useOpenGoogleDrivePicker. simpl.
  apply String.eqb_neq in Hc. apply String.eqb_neq in Hk.
  rewrite Hc, Hk. simpl. eexists. repeat split.
Qed.

End PickerFacts.

(** * Properties of plain objects *)

Module JsFacts.
Import Js.

(** *** Filters *)

Lemma filter_all (p : string -> bool) l :
  Forall (fun k => p k = true) l -> filter p l = l.
Proof.
  induction 1 as [|k l Hk _ IH]; simpl; [reflexivity |].
  rewrite Hk, IH. reflexivity.
Qed.

Lemma filter_none (p : string -> bool) l :
  Forall (fun k => p k = false) l -> filter p l = [].
Proof.
  induction 1 as [|k l Hk _ IH]; simpl; [reflexivity |].
  rewrite Hk. exact IH.
Qed.

Lemma filter_filter (p q : string -> bool) l :
  filter p (filter q l) = filter (fun k => q k && p k) l.
Proof.
  induction l as [|k l IH]; simpl; [reflexivity |].
  destruct (q k); simpl; [destruct (p k) |]; rewrite IH; reflexivity.
Qed.

Lemma filter_split_perm (p : string -> bool) l :
  Permutation l (filter p l ++ filter (fun k => negb (p k)) l).
Proof.
  induction l as [|k l IH]; simpl; [constructor |].
  destruct (p k); simpl.
  - constructor. exact IH.
  - apply Permutation_cons_app. exact IH.
Qed.

(** *** The numeric order of array indices *)

Lemma insert_index_perm k l : Permutation (k :: l) (insert_index k l).
Proof.
  induction l as [|x r IH]; simpl; [reflexivity |].
  destruct (index_value k <=? index_value x)%N; [reflexivity |].
  rewrite perm_swap. constructor. exact IH.
Qed.

Lemma sort_index_perm l : Permutation l (sort_index l).
Proof.
  induction l as [|k r IH]; simpl; [constructor |].
  rewrite <- insert_index_perm. constructor. exact IH.
Qed.

Lemma insert_index_sorted k l :
  Sorted index_le l -> Sorted index_le (insert_index k l).
Proof.
  induction 1 as [|x r Hr IH Hx]; simpl.
  - repeat constructor.
  - destruct (N.leb_spec (index_value k) (index_value x)) as [Hle | Hlt].
    + constructor; [constructor; assumption | constructor; exact Hle].
    + constructor; [exact IH |].
      destruct r as [|y r']; simpl.
      * constructor. unfold index_le. lia.
      * destruct (index_value k <=? index_value y)%N.
        -- constructor. unfold index_le. lia.
        -- constructor. inversion Hx; subst. assumption.
Qed.

Lemma sort_index_sorted l : Sorted index_le (sort_index l).
Proof.
  induction l as [|k r IH]; simpl; [constructor |].
  apply insert_index_sorted. exact IH.
Qed.

Lemma sort_index_fixed l : Sorted index_le l -> sort_index l = l.
Proof.
  induction 1 as [|x r Hr IH Hx]; simpl; [reflexivity |].
  rewrite IH. destruct Hx as [|y r' Hxy]; simpl; [reflexivity |].
  unfold index_le in Hxy. apply N.leb_le in Hxy. rewrite Hxy. reflexivity.
Qed.

(** *** [OrdinaryOwnPropertyKeys] *)

Lemma own_key_order_perm ks : Permutation ks (own_key_order ks).
Proof.
  unfold own_key_order.
  rewrite <- sort_index_perm. apply filter_split_perm.
Qed.

Lemma own_key_order_In ks k : In k (own_key_order ks) <-> In k ks.
Proof.
  split; apply Permutation_in;
    [symmetry |]; apply own_key_order_perm.
Qed.

Lemma own_key_order_NoDup ks : NoDup ks -> NoDup (own_key_order ks).
Proof.
  apply Permutation_NoDup, own_key_order_perm.
Qed.

Lemma sorted_indices_are_indices ks :
  Forall (fun k => is_index k = true) (sort_index (filter is_index ks)).
Proof.
  apply (Permutation_Forall (sort_index_perm _)).
  apply Forall_forall. intros k Hk. apply filter_In in Hk. tauto.
Qed.

Lemma others_are_not_indices ks :
  Forall (fun k => is_index k = false) (filter (fun k => negb (is_index k)) ks).
Proof.
  apply Forall_forall. intros k Hk. apply filter_In in Hk.
  destruct Hk as [_ Hk]. apply negb_true_iff in Hk. exact Hk.
Qed.

(** Listing the keys of a list already in own-key order changes nothing. *)
Lemma own_key_order_idem ks : own_key_order (own_key_order ks) = own_key_order ks.
Proof.
  unfold own_key_order at 2.
  set (a := sort_index (filter is_index ks)).
  set (b := filter (fun k => negb (is_index k)) ks).
  unfold own_key_order. rewrite !filter_app.
  assert (Ha : Forall (fun k => is_index k = true) a) by apply sorted_indices_are_indices.
  assert (Hb : Forall (fun k => is_index k = false) b) by apply others_are_not_indices.
  rewrite (filter_all is_index a Ha), (filter_none is_index b Hb), app_nil_r.
  rewrite (filter_none (fun k => negb (is_index k)) a),
          (filter_all (fun k => negb (is_index k)) b).
  - f_equal. apply sort_index_fixed. apply sort_index_sorted.
  - eapply Forall_impl; [| exact Hb]. simpl. intros k Hk. rewrite Hk. reflexivity.
  - eapply Forall_impl; [| exact Ha]. simpl. intros k Hk. rewrite Hk. reflexivity.
Qed.

(** Without array indices among the keys, own-key order is creation order. *)
Lemma own_key_order_plain ks :
  Forall (fun k => is_index k = false) ks -> own_key_order ks = ks.
Proof.
  intros Hp. unfold own_key_order.
  rewrite (filter_none is_index ks Hp). simpl.
  apply filter_all. eapply Forall_impl; [| exact Hp].
  simpl. intros k Hk. rewrite Hk. reflexivity.
Qed.

(** *** Objects given by their keys and a value function *)

Lemma tabulate_keys f ks : map fst (tabulate f ks) = ks.
Proof.
  unfold tabulate. rewrite map_map. simpl. apply map_id.
Qed.

Lemma js_get_tabulate f ks k :
  In k ks -> js_get (tabulate f ks) k = Some (f k).
Proof.
  induction ks as [|x r IH]; simpl; intros Hin; [destruct Hin |].
  destruct (x =? k) eqn:E.
  - apply String.eqb_eq in E. subst x. reflexivity.
  - destruct Hin as [Hx | Hr]; [| exact (IH Hr)].
    subst x. rewrite String.eqb_refl in E. discriminate E.
Qed.

Lemma Object_keys_tabulate f ks :
  Object_keys (tabulate f ks) = own_key_order ks.
Proof.
  unfold Object_keys. rewrite tabulate_keys. reflexivity.
Qed.

Lemma Object_entries_tabulate f ks :
  Object_entries (tabulate f ks) = tabulate f (own_key_order ks).
Proof.
  unfold Object_entries. rewrite Object_keys_tabulate.
  unfold tabulate at 2. apply map_ext_in. intros k Hk.
  rewrite (js_get_tabulate f ks k (proj1 (own_key_order_In ks k) Hk)).
  reflexivity.
Qed.

Lemma js_define_fresh (o : JsObject) k v :
  ~ In k (map fst o) -> js_define o k v = o ++ [(k, v)].
Proof.
  induction o as [|[k' v'] r IH]; simpl; intros Hn; [reflexivity |].
  destruct (k' =? k) eqn:E.
  - apply String.eqb_eq in E. exfalso. apply Hn. left. exact E.
  - f_equal. apply IH. intros Hin. apply Hn. right. exact Hin.
Qed.

Lemma fold_define_fresh (es acc : JsObject) :
  NoDup (map fst (acc ++ es)) ->
  fold_left (fun a kv => js_define a (fst kv) (snd kv)) es acc = acc ++ es.
Proof.
  revert acc. induction es as [|[k v] r IH]; intros acc Hnd; simpl.
  - rewrite app_nil_r. reflexivity.
  - rewrite js_define_fresh.
    + rewrite IH; rewrite <- app_assoc; [reflexivity | exact Hnd].
    + rewrite map_app in Hnd. simpl in Hnd.
      apply NoDup_remove_2 in Hnd. intros Hin. apply Hnd.
      apply in_or_app. left. exact Hin.
Qed.

(** Spreading re-creates the properties in own-key order. *)
Lemma js_spread_tabulate f ks :
  NoDup ks -> js_spread (tabulate f ks) = tabulate f (own_key_order ks).
Proof.
  intros Hnd. unfold js_spread. rewrite Object_entries_tabulate.
  apply fold_define_fresh. simpl. rewrite tabulate_keys.
  apply own_key_order_NoDup. exact Hnd.
Qed.

(** Defining an existing key changes its value where it stands. *)
Lemma js_define_tabulate f ks k v :
  NoDup ks -> In k ks ->
  js_define (tabulate f ks) k v = tabulate (fun x => if k =? x then v else f x) ks.
Proof.
  induction 1 as [|x r Hx Hr IH]; simpl; intros Hin; [destruct Hin |].
  destruct (x =? k) eqn:E.
  - apply String.eqb_eq in E. subst x. rewrite String.eqb_refl. f_equal.
    apply map_ext_in. intros y Hy.
    destruct (k =? y) eqn:Ey; [| reflexivity].
    apply String.eqb_eq in Ey. subst y. contradiction.
  - rewrite String.eqb_sym, E. f_equal.
    destruct Hin as [Hk | Hk]; [| exact (IH Hk)].
    subst x. rewrite String.eqb_refl in E. discriminate E.
Qed.

(** *** Blank objects built by assignment *)

Lemma mem_In k l : mem k l = true <-> In k l.
Proof.
  unfold mem. rewrite existsb_exists. split.
  - intros (x & Hin & Heq). apply String.eqb_eq in Heq. subst x. exact Hin.
  - intros Hin. exists k. split; [exact Hin | apply String.eqb_refl].
Qed.

Lemma mem_snoc x seen k : mem x (seen ++ [k]) = mem x seen || (x =? k).
Proof.
  unfold mem. rewrite existsb_app. simpl. rewrite orb_false_r. reflexivity.
Qed.

Lemma js_define_blank seen k :
  js_define (tabulate (fun _ => "") seen) k ""
  = tabulate (fun _ => "") (if mem k seen then seen else seen ++ [k]).
Proof.
  induction seen as [|x r IH]; simpl; [reflexivity |].
  rewrite (String.eqb_sym k x).
  destruct (x =? k); simpl; [reflexivity |].
  rewrite IH. fold (mem k r). destruct (mem k r); reflexivity.
Qed.

(** Assigning [''] under each name in turn creates one property per
    distinct name, at its first occurrence. *)
Lemma fold_assign_blank ks seen :
  ~ In "__proto__" ks ->
  fold_left (fun acc envVar => js_assign acc envVar "") ks (tabulate (fun _ => "") seen)
  = tabulate (fun _ => "")
      (seen ++ filter (fun x => negb (mem x seen)) (first_occurrences ks)).
Proof.
  revert seen. induction ks as [|k r IH]; intros seen Hp; simpl.
  - rewrite app_nil_r. reflexivity.
  - assert (Hk : (k =? "__proto__") = false).
    { apply String.eqb_neq. intros E. apply Hp. left. exact E. }
    assert (Hr : ~ In "__proto__" r) by (intros Hin; apply Hp; right; exact Hin).
    unfold js_assign at 2. rewrite Hk, js_define_blank, (IH _ Hr). f_equal.
    destruct (mem k seen) eqn:Em; simpl.
    + f_equal. rewrite filter_filter. apply filter_ext. intros x.
      destruct (x =? k) eqn:Exk; destruct (mem x seen) eqn:Ex; simpl;
        try reflexivity.
      apply String.eqb_eq in Exk. subst x. congruence.
    + rewrite <- app_assoc. simpl. f_equal. f_equal.
      rewrite filter_filter. apply filter_ext. intros x.
      rewrite mem_snoc, negb_orb, andb_comm. reflexivity.
Qed.

(** *** Distinct names *)

Lemma first_occurrences_In ks k : In k (first_occurrences ks) <-> In k ks.
Proof.
  induction ks as [|x r IH]; simpl; [tauto |].
  rewrite filter_In, IH, negb_true_iff, String.eqb_neq.
  destruct (String.eqb_spec x k) as [E | E]; [tauto |].
  split; [tauto |]. intros [H | H]; [tauto |]. right. split; [exact H |].
  intros E'. apply E. symmetry. exact E'.
Qed.

Lemma first_occurrences_NoDup ks : NoDup (first_occurrences ks).
Proof.
  induction ks as [|x r IH]; simpl; constructor.
  - rewrite filter_In, String.eqb_refl. simpl. intros [_ H]. discriminate H.
  - clear -IH. induction IH as [|y l Hy _ IHl]; simpl; [constructor |].
    destruct (negb (y =? x)); [| exact IHl].
    constructor; [| exact IHl].
    rewrite filter_In. tauto.
Qed.

Lemma first_occurrences_fixed ks : NoDup ks -> first_occurrences ks = ks.
Proof.
  induction 1 as [|x r Hx _ IH]; simpl; [reflexivity |].
  rewrite IH. f_equal. apply filter_all.
  apply Forall_forall. intros y Hy.
  apply negb_true_iff, String.eqb_neq. intros E. subst y. contradiction.
Qed.

End JsFacts.

(** * Properties of the deployment form *)

Module EnvFormFacts.
Import Js Tools EnvForm JsFacts.

(** *** Selecting a deployment *)

Lemma emptyEnvVariables_tabulate d :
  ~ In "__proto__" (env_vars d) ->
  emptyEnvVariables (Some d) = tabulate (fun _ => "") (first_occurrences (env_vars d)).
Proof.
  intros Hp. unfold emptyEnvVariables.
  change (@nil (string * string)) with (tabulate (fun _ => "") []).
  rewrite (fold_assign_blank (env_vars d) [] Hp). simpl.
  f_equal. apply filter_all. apply Forall_forall. reflexivity.
Qed.

(** Away from the name [__proto__], selecting a deployment gives a draft
    with one blank field per distinct variable of that deployment; a name
    that is not in the catalog gives the empty draft. *)
Lemma handleDeploymentChange_blank_draft deployments name st :
  let st' := handleDeploymentChange deployments name st in
  deployment st' = Some name /\
  match selectedDeployment deployments name with
  | Some d =>
      ~ In "__proto__" (env_vars d) ->
      (forall k, In k (Object_keys (envVariables st')) <-> In k (env_vars d))
      /\ (forall k, In k (env_vars d) -> js_get (envVariables st') k = Some "")
      /\ NoDup (Object_keys (envVariables st'))
  | None => envVariables st' = []
  end.
Proof.
  simpl. split; [reflexivity |].
  destruct (selectedDeployment deployments name) as [d|]; [| reflexivity].
  intros Hp. rewrite (emptyEnvVariables_tabulate d Hp), Object_keys_tabulate.
  split; [| split].
  - intros k. rewrite own_key_order_In. apply first_occurrences_In.
  - intros k Hk. apply (js_get_tabulate (fun _ => "")).
    apply first_occurrences_In. exact Hk.
  - apply own_key_order_NoDup, first_occurrences_NoDup.
Qed.

(** C6 at a deployment that lists the variable [__proto__]: the draft has
    no field for it, so its keys are not the deployment's [env_vars]. *)
Theorem handleDeploymentChange_proto_name (st : FormState) :
  let st' := handleDeploymentChange proto_catalog "prod" st in
  Object_keys (envVariables st') = ["API_KEY"]
  /\ ~ (forall k, In k (Object_keys (envVariables st')) <-> In k ["__proto__"; "API_KEY"]).
Proof.
  simpl. split; [reflexivity |].
  intros H. destruct (proj2 (H "__proto__")) as [E | []].
  - left. reflexivity.
  - discriminate E.
Qed.

(** *** Editing fields *)

Lemma apply_edits_deployment edits st :
  deployment (apply_edits edits st) = deployment st.
Proof.
  revert st. induction edits as [|e r IH]; intros st; simpl; [reflexivity |].
  unfold apply_edits in IH. rewrite IH. reflexivity.
Qed.

Lemma handleEnvVariableChange_tabulate f ks k v st :
  NoDup ks -> In k ks ->
  envVariables st = tabulate f ks ->
  envVariables (handleEnvVariableChange k v st)
  = tabulate (fun x => if k =? x then v else f x) (own_key_order ks).
Proof.
  intros Hnd Hin Hst. simpl. rewrite Hst, (js_spread_tabulate f ks Hnd).
  apply js_define_tabulate.
  - apply own_key_order_NoDup. exact Hnd.
  - apply own_key_order_In. exact Hin.
Qed.

(** After any run of edits of existing fields the draft lists the same keys
    in the same order, each with its last edited value. *)
Lemma apply_edits_entries edits : forall f ks st,
  NoDup ks ->
  Forall (fun e => In (fst e) ks) edits ->
  envVariables st = tabulate f ks ->
  Object_entries (envVariables (apply_edits edits st))
  = tabulate (edits_from f edits) (own_key_order ks).
Proof.
  induction edits as [|[k v] r IH]; intros f ks st Hnd Hall Hst.
  - simpl. rewrite Hst. apply Object_entries_tabulate.
  - inversion Hall as [|e r' Hk Hr]; subst. simpl in Hk.
    change (apply_edits ((k, v) :: r) st)
      with (apply_edits r (handleEnvVariableChange k v st)).
    rewrite (IH (fun x => if k =? x then v else f x) (own_key_order ks)).
    + rewrite own_key_order_idem. reflexivity.
    + apply own_key_order_NoDup. exact Hnd.
    + eapply Forall_impl; [| exact Hr]. simpl. intros e He.
      apply own_key_order_In. exact He.
    + apply handleEnvVariableChange_tabulate; assumption.
Qed.

(** *** Submitting *)

Lemma serialize_entries o f ks :
  Object_entries o = tabulate f ks -> serialize o = config_line f ks.
Proof.
  intros Ho. unfold serialize, config_line. rewrite Ho.
  unfold tabulate. rewrite map_map. reflexivity.
Qed.

Lemma handleSubmit_selected st name :
  deployment st = Some name -> name <> "" ->
  handleSubmit st =
    ({| deployment := Some name; envVariables := envVariables st;
        isSubmitting := false |},
     [SetParams (config_patch (serialize (envVariables st))); OnClose]).
Proof.
  intros Hd Hn. unfold handleSubmit. rewrite Hd. simpl.
  apply String.eqb_neq in Hn. rewrite Hn. reflexivity.
Qed.

(** Without a deployment nothing is written and the modal stays open. *)
Lemma handleSubmit_unselected st :
  truthy_string (deployment st) = false -> handleSubmit st = (st, []).
Proof.
  intros Hd. unfold handleSubmit. rewrite Hd. reflexivity.
Qed.

(** C7, as the code has it. With a deployment of the catalog selected
    (none of whose variables is named [__proto__]) and any edits of its
    fields, submit calls [setParams] once, with a patch that holds only
    [deploymentConfig], and then the close continuation. The string is
    [key=value] joined by [;] over the own keys of the draft object: the
    distinct variables that spell an array index first, in ascending numeric
    order, then the other distinct variables in [env_vars] order; this is
    [env_vars] itself when the names are distinct and none spells an array
    index. With the deployment cell unset or empty, submit does nothing. *)
Theorem handleSubmit_writes_config deployments name d edits st :
  selectedDeployment deployments name = Some d ->
  name <> "" ->
  ~ In "__proto__" (env_vars d) ->
  Forall (fun e => In (fst e) (env_vars d)) edits ->
  let draft := apply_edits edits (handleDeploymentChange deployments name st) in
  let line := config_line (edited_value edits)
                (own_key_order (first_occurrences (env_vars d))) in
  handleSubmit draft =
    ({| deployment := Some name; envVariables := envVariables draft;
        isSubmitting := false |},
     [SetParams (config_patch line); OnClose])
  /\ (forall p, merge_params (config_patch line) p =
                {| tools := tools p; fileIds := fileIds p;
                   deploymentConfig := Some line |})
  /\ (NoDup (env_vars d) ->
      Forall (fun k => is_index k = false) (env_vars d) ->
      own_key_order (first_occurrences (env_vars d)) = env_vars d)
  /\ (forall st0, truthy_string (deployment st0) = false ->
                  handleSubmit st0 = (st0, [])).
Proof.
  intros Hsel Hname Hproto Hedits draft line.
  split; [| split; [| split]].
  - assert (Hline : serialize (envVariables draft) = line).
    { unfold line. apply serialize_entries. unfold draft.
      apply (apply_edits_entries edits (fun _ => "") (first_occurrences (env_vars d))).
      - apply first_occurrences_NoDup.
      - eapply Forall_impl; [| exact Hedits]. simpl. intros e He.
        apply first_occurrences_In. exact He.
      - simpl. rewrite Hsel. apply emptyEnvVariables_tabulate. exact Hproto. }
    rewrite (handleSubmit_selected draft name).
    + rewrite Hline. reflexivity.
    + unfold draft. rewrite apply_edits_deployment. reflexivity.
    + exact Hname.
  - intros p. reflexivity.
  - intros Hnd Hplain. rewrite (first_occurrences_fixed _ Hnd).
    apply own_key_order_plain. exact Hplain.
  - apply handleSubmit_unselected.
Qed.

Lemma handleSubmit_writes_config_witness :
  snd (handleSubmit
         (apply_edits [("API_KEY", "x"); ("REGION", "us")]
            (handleDeploymentChange prod_catalog "prod" (initialState prod_catalog ""))))
  = [SetParams (config_patch "API_KEY=x;REGION=us"); OnClose].
Proof.
  refine (f_equal snd
            (proj1 (handleSubmit_writes_config prod_catalog "prod"
                      {| d_name := "prod"; env_vars := ["API_KEY"; "REGION"] |}
                      [("API_KEY", "x"); ("REGION", "us")]
                      (initialState prod_catalog "") eq_refl _ _ _))).
  - discriminate.
  - simpl. intros [H | [H | []]]; discriminate H.
  - constructor; [left; reflexivity |].
    constructor; [right; left; reflexivity | constructor].
Defined.

(** A variable whose name spells an array index is written before the
    others, whatever its place in [env_vars]. *)
Lemma handleSubmit_index_names_first :
  let draft := handleDeploymentChange numbered_catalog "prod"
                 (initialState numbered_catalog "") in
  snd (handleSubmit draft) = [SetParams (config_patch "1=;REGION="); OnClose]
  /\ config_line (edited_value []) ["REGION"; "1"] = "REGION=;1="
  /\ snd (handleSubmit draft)
     <> [SetParams (config_patch (config_line (edited_value []) ["REGION"; "1"])); OnClose].
Proof.
  split; [reflexivity | split; [reflexivity |]].
  simpl. intros H. discriminate H.
Qed.

(** A name that is not in the catalog is still a selected deployment for
    [handleSubmit]: the empty string is written and the modal closes. *)
Lemma handleSubmit_stale_name :
  snd (handleSubmit (handleDeploymentChange prod_catalog "staging"
                       (initialState prod_catalog "")))
  = [SetParams (config_patch ""); OnClose].
Proof.
  reflexivity.
Qed.

End EnvFormFacts.

(** * Further properties of the tool reconciler *)

Module ToolsLaws.
Import Js Tools ToolsFacts.

Lemma filter_twice {A : Type} (f : A -> bool) (l : list A) :
  filter f (filter f l) = filter f l.
Proof.
  induction l as [|x l IH]; simpl; [reflexivity |].
  destruct (f x) eqn:E; simpl; [rewrite E, IH | rewrite IH]; reflexivity.
Qed.

Lemma filter_swap {A : Type} (f g : A -> bool) (l : list A) :
  filter f (filter g l) = filter g (filter f l).
Proof.
  induction l as [|x l IH]; simpl; [reflexivity |].
  destruct (f x) eqn:Ef, (g x) eqn:Eg; simpl;
    rewrite ?Ef, ?Eg, IH; reflexivity.
Qed.

Lemma filter_selects_within {A : Type} (f g h : A -> bool) (P : A -> Prop) :
  (forall x, f x = g x && h x) ->
  (forall x, g x = true -> (h x = true <-> P x)) ->
  forall l, Selects P (filter g l) (filter f l).
Proof.
  intros Hf Hh l. induction l as [|x l IH]; simpl; [constructor |].
  rewrite Hf. destruct (g x) eqn:Eg; simpl; [| exact IH].
  destruct (h x) eqn:Eh.
  - apply Selects_keep; [apply (Hh x Eg); exact Eh | exact IH].
  - apply Selects_drop; [| exact IH].
    intros HP. apply (Hh x Eg) in HP. congruence.
Qed.

Lemma allowlist_test (allowlist : list string) (n : string) :
  existsb (fun rt => rt =? n) allowlist = true <-> In n allowlist.
Proof.
  rewrite existsb_exists. split.
  - intros (rt & Hin & Heq). apply String.eqb_eq in Heq. subst rt. exact Hin.
  - intros Hin. exists n. split; [exact Hin | apply String.eqb_refl].
Qed.

(** *** [useUnauthedTools] and [useShowUnauthedToolsModal] *)

Lemma auth_flag_iff (t : ManagedTool) :
  truthy_bool (is_auth_required t) = true <-> is_auth_required t = Some true.
Proof.
  destruct (is_auth_required t) as [[|]|]; simpl; split;
    intros H; try reflexivity; discriminate H.
Qed.

Lemma unauthedTools_filter (data : option (list ManagedTool)) :
  unauthedTools data
  = filter (fun tool => truthy_bool (is_auth_required tool)) (or_empty data).
Proof.
  destruct data; reflexivity.
Qed.

Lemma isToolAuthRequired_iff (data : option (list ManagedTool)) :
  isToolAuthRequired data = true <->
  exists t, In t (or_empty data) /\ is_auth_required t = Some true.
Proof.
  unfold isToolAuthRequired. rewrite unauthedTools_filter. split.
  - intros Hlen. apply Nat.ltb_lt in Hlen.
    destruct (filter _ (or_empty data)) as [|t r] eqn:E; [simpl in Hlen; lia |].
    assert (Hin : In t (filter (fun tool => truthy_bool (is_auth_required tool))
                          (or_empty data))) by (rewrite E; left; reflexivity).
    apply filter_In in Hin. destruct Hin as [Hin Ht].
    exists t. split; [exact Hin | apply auth_flag_iff; exact Ht].
  - intros (t & Hin & Ht). apply Nat.ltb_lt.
    assert (Hf : In t (filter (fun tool => truthy_bool (is_auth_required tool))
                         (or_empty data))).
    { apply filter_In. split; [exact Hin | apply auth_flag_iff; exact Ht]. }
    destruct (filter _ (or_empty data)); [destruct Hf | simpl; lia].
Qed.

(** The tools that require authentication are the catalog tools whose
    [is_auth_required] is set and true, in catalog order, and
    [isToolAuthRequired] says whether there is one; with the catalog not
    loaded there is none. *)
Theorem unauthedTools_selects (data : option (list ManagedTool)) :
  Selects (fun t => is_auth_required t = Some true) (or_empty data) (unauthedTools data)
  /\ (isToolAuthRequired data = true <->
      exists t, In t (or_empty data) /\ is_auth_required t = Some true)
  /\ isToolAuthRequired None = false.
Proof.
  split; [| split; [| reflexivity]].
  - rewrite unauthedTools_filter. apply filter_selects. exact auth_flag_iff.
  - apply isToolAuthRequired_iff.
Qed.

(** The notice is shown exactly when it was not dismissed (nothing stored,
    or [false] stored) and some catalog tool requires authentication; once
    dismissed it is not shown again, whatever the tool list becomes. *)
Theorem show_iff (stored : option bool) (data later : option (list ManagedTool)) :
  (show stored data = true <->
     stored <> Some true /\
     exists t, In t (or_empty data) /\ is_auth_required t = Some true)
  /\ show (onDismissed stored) later = false.
Proof.
  split; [| reflexivity].
  unfold show. rewrite andb_true_iff, isToolAuthRequired_iff, negb_true_iff.
  unfold hasDismissed.
  destruct stored as [[|]|]; simpl; split; intros [H1 H2]; split;
    try assumption; try reflexivity; try discriminate; congruence.
Qed.

(** *** [availableTools] *)

(** An allowlist only removes tools: what an agent with an allowlist gets is
    what an agent without one gets, with the tools outside the allowlist
    dropped and the order kept. *)
Theorem availableTools_allowlist_narrows (allowlist : list string)
    (managedTools : option (list ManagedTool)) :
  Selects (fun t => In (t_name t) allowlist)
    (availableTools None managedTools)
    (availableTools (Some {| agent_tools := Some allowlist |}) managedTools)
  /\ availableTools (Some {| agent_tools := None |}) managedTools
     = availableTools None managedTools.
Proof.
  split; [| reflexivity].
  unfold availableTools. simpl.
  apply (filter_selects_within _ _
           (fun t => existsb (fun rt => rt =? t_name t) allowlist)).
  - intros t. unfold is_selectable. rewrite andb_true_r. reflexivity.
  - intros t _. apply allowlist_test.
Qed.

(** Only membership in the allowlist counts: two allowlists with the same
    names, in any order and with any repetitions, select the same tools. *)
Theorem availableTools_allowlist_members (l1 l2 : list string)
    (managedTools : option (list ManagedTool)) :
  (forall n, In n l1 <-> In n l2) ->
  availableTools (Some {| agent_tools := Some l1 |}) managedTools
  = availableTools (Some {| agent_tools := Some l2 |}) managedTools.
Proof.
  intros Hsame. unfold availableTools. simpl.
  apply filter_ext. intros t. unfold is_selectable. f_equal.
  destruct (existsb (fun rt => rt =? t_name t) l1) eqn:E1;
  destruct (existsb (fun rt => rt =? t_name t) l2) eqn:E2; try reflexivity.
  - apply allowlist_test, Hsame, allowlist_test in E1. congruence.
  - apply allowlist_test, Hsame, allowlist_test in E2. congruence.
Qed.

Lemma availableTools_allowlist_members_witness :
  availableTools (Some {| agent_tools := Some ["drive"; "web_search"; "drive"] |})
    (Some three_tools)
  = availableTools (Some {| agent_tools := Some ["web_search"; "drive"] |})
      (Some three_tools)
  /\ map t_name
       (availableTools (Some {| agent_tools := Some ["web_search"; "drive"] |})
          (Some three_tools))
     = ["web_search"; "drive"].
Proof.
  split; [| reflexivity].
  apply (availableTools_allowlist_members
           ["drive"; "web_search"; "drive"] ["web_search"; "drive"]).
  intros n. simpl. tauto.
Defined.

(** Reconciling an already reconciled list changes nothing. *)
Theorem availableTools_idempotent (agent : option Agent)
    (managedTools : option (list ManagedTool)) :
  availableTools agent (Some (availableTools agent managedTools))
  = availableTools agent managedTools.
Proof.
  unfold availableTools. simpl. apply filter_twice.
Qed.

(** *** [handleToggle] *)

Lemma handleToggle_composerFiles dflt name checked s :
  composerFiles (handleToggle dflt name checked s)
  = if is_default_file_loader dflt name then [] else composerFiles s.
Proof.
  unfold handleToggle. destruct (is_default_file_loader dflt name); reflexivity.
Qed.

Lemma handleToggle_params dflt name checked s :
  params (handleToggle dflt name checked s)
  = {| tools := Some (enabledTools (handleToggle dflt name checked s));
       fileIds := if is_default_file_loader dflt name then Some []
                  else fileIds (params s);
       deploymentConfig := deploymentConfig (params s) |}.
Proof.
  unfold handleToggle. destruct (is_default_file_loader dflt name); reflexivity.
Qed.

Lemma session_eq (s1 s2 : Session) :
  params s1 = params s2 -> composerFiles s1 = composerFiles s2 -> s1 = s2.
Proof.
  destruct s1, s2. simpl. intros -> ->. reflexivity.
Qed.

(** Toggling a tool off removes every entry with that name, duplicates
    included, keeps the other entries as they are and in order, and doing
    it a second time changes nothing in the session. *)
Theorem handleToggle_off_idempotent dflt name s :
  Selects (fun t => t_name t <> name)
    (enabledTools s) (enabledTools (handleToggle dflt name false s))
  /\ handleToggle dflt name false (handleToggle dflt name false s)
     = handleToggle dflt name false s.
Proof.
  split.
  - rewrite handleToggle_enabledTools. apply filter_selects.
    intros t. rewrite negb_true_iff. apply String.eqb_neq.
  - apply session_eq.
    + rewrite (handleToggle_params dflt name false (handleToggle dflt name false s)).
      rewrite (handleToggle_params dflt name false s).
      rewrite !handleToggle_enabledTools, filter_twice. simpl.
      destruct (is_default_file_loader dflt name); reflexivity.
    + rewrite !handleToggle_composerFiles.
      destruct (is_default_file_loader dflt name); reflexivity.
Qed.

(** Toggling off a name that is not enabled leaves the enabled tools as
    they were. *)
Theorem handleToggle_off_unknown dflt name s :
  ~ In name (enabled_names s) ->
  enabledTools (handleToggle dflt name false s) = enabledTools s.
Proof.
  intros Hn. rewrite handleToggle_enabledTools.
  apply filter_other_absent. exact Hn.
Qed.

Lemma handleToggle_off_unknown_witness :
  enabledTools (handleToggle None "drive" false one_tool_session)
  = [tool_ref "web_search"].
Proof.
  apply (handleToggle_off_unknown None "drive" one_tool_session).
  simpl. intros [H | []]. discriminate H.
Defined.

(** A toggle never touches [deploymentConfig], and a toggle of a tool that
    is not the default file loader touches neither [fileIds] nor the staged
    files. *)
Theorem handleToggle_frame dflt name checked s :
  is_default_file_loader dflt name = false ->
  deploymentConfig (params (handleToggle dflt name checked s))
  = deploymentConfig (params s)
  /\ fileIds (params (handleToggle dflt name checked s)) = fileIds (params s)
  /\ composerFiles (handleToggle dflt name checked s) = composerFiles s.
Proof.
  intros Hd. rewrite handleToggle_params, handleToggle_composerFiles, Hd.
  repeat split.
Qed.

Lemma handleToggle_frame_witness :
  let s := {| params := {| tools := None; fileIds := Some ["a"; "b"];
                           deploymentConfig := Some "API_KEY=x" |};
              composerFiles := ["notes.txt"] |} in
  let s' := handleToggle (Some (tool_ref "file_loader")) "web_search" true s in
  deploymentConfig (params s') = Some "API_KEY=x"
  /\ fileIds (params s') = Some ["a"; "b"]
  /\ composerFiles s' = ["notes.txt"].
Proof.
  apply (handleToggle_frame (Some (tool_ref "file_loader")) "web_search" true).
  reflexivity.
Defined.

(** Two toggles of different names, at least one of them a toggle off, give
    the same session in either order. *)
Theorem handleToggle_commute dflt n1 c1 n2 c2 s :
  n1 <> n2 ->
  c1 = false \/ c2 = false ->
  handleToggle dflt n1 c1 (handleToggle dflt n2 c2 s)
  = handleToggle dflt n2 c2 (handleToggle dflt n1 c1 s).
Proof.
  intros Hne Hc.
  assert (Hn12 : (n1 =? n2) = false) by (apply String.eqb_neq; exact Hne).
  assert (Hn21 : (n2 =? n1) = false)
    by (apply String.eqb_neq; intros E; apply Hne; symmetry; exact E).
  apply session_eq.
  - rewrite (handleToggle_params dflt n1 c1 (handleToggle dflt n2 c2 s)).
    rewrite (handleToggle_params dflt n2 c2 (handleToggle dflt n1 c1 s)).
    rewrite (handleToggle_params dflt n2 c2 s), (handleToggle_params dflt n1 c1 s).
    simpl. f_equal.
    + f_equal. rewrite !handleToggle_enabledTools.
      destruct c1, c2.
      * destruct Hc as [Hc | Hc]; discriminate Hc.
      * rewrite filter_app. simpl. rewrite Hn12. reflexivity.
      * rewrite filter_app. simpl. rewrite Hn21. reflexivity.
      * apply filter_swap.
    + destruct (is_default_file_loader dflt n1) eqn:E1;
      destruct (is_default_file_loader dflt n2) eqn:E2; try reflexivity.
    - rewrite !handleToggle_composerFiles.
    destruct (is_default_file_loader dflt n1) eqn:E1;
    destruct (is_default_file_loader dflt n2) eqn:E2; reflexivity.
Qed.

Lemma handleToggle_commute_witness :
  handleToggle None "drive" true (handleToggle None "web_search" false one_tool_session)
  = handleToggle None "web_search" false (handleToggle None "drive" true one_tool_session).
Proof.
  apply (handleToggle_commute None "drive" true "web_search" false one_tool_session).
  - discriminate.
  - right. reflexivity.
Defined.

(** What a toggle does to the set of enabled names: the toggled name is in
    it after a toggle on and out of it after a toggle off, and every other
    name is in it exactly when it was before. *)
Theorem handleToggle_names dflt name checked other s :
  other <> name ->
  (In other (enabled_names (handleToggle dflt name checked s))
   <-> In other (enabled_names s))
  /\ In name (enabled_names (handleToggle dflt name true s))
  /\ ~ In name (enabled_names (handleToggle dflt name false s)).
Proof.
  intros Hne. unfold enabled_names. rewrite !handleToggle_enabledTools.
  split; [| split].
  - destruct checked.
    + rewrite map_app, in_app_iff. simpl. split; [| tauto].
      intros [H | [H | []]]; [exact H |]. exfalso. apply Hne. symmetry. exact H.
    + rewrite names_filter_other, filter_In, negb_true_iff, String.eqb_neq. tauto.
  - rewrite map_app, in_app_iff. right. left. reflexivity.
  - rewrite names_filter_other, filter_In, String.eqb_refl. simpl.
    intros [_ H]. discriminate H.
Qed.

Lemma handleToggle_names_witness :
  (In "web_search" (enabled_names (handleToggle None "drive" true one_tool_session))
   <-> In "web_search" (enabled_names one_tool_session))
  /\ In "drive" (enabled_names (handleToggle None "drive" true one_tool_session))
  /\ ~ In "drive" (enabled_names (handleToggle None "drive" false one_tool_session)).
Proof.
  apply (handleToggle_names None "drive" true "web_search" one_tool_session).
  discriminate.
Defined.

End ToolsLaws.

(** * Further properties of the Drive picker *)

Module PickerLaws.
Import Js Tools Picker PickerFacts.

Lemma folder_count_perm ds ds' :
  Permutation ds ds' ->
  List.length (filter is_folder ds) = List.length (filter is_folder ds').
Proof.
  induction 1 as [|x l l' _ IH|x y l|l l' l'' _ IH1 _ IH2]; simpl.
  - reflexivity.
  - destruct (is_folder x); simpl; rewrite IH; reflexivity.
  - destruct (is_folder x), (is_folder y); reflexivity.
  - rewrite IH1. exact IH2.
Qed.

Lemma file_count_perm ds ds' :
  Permutation ds ds' -> file_count ds = file_count ds'.
Proof.
  induction 1 as [|x l l' _ IH|x y l|l l' l'' _ IH1 _ IH2]; simpl.
  - reflexivity.
  - destruct (doc_type x =? "folder"); rewrite IH; reflexivity.
  - destruct (doc_type x =? "folder"), (doc_type y =? "folder"); reflexivity.
  - rewrite IH1. exact IH2.
Qed.

Lemma mixed_test ds :
  Nat.ltb 0 (List.length (filter is_folder ds)) && Nat.ltb 0 (file_count ds) = true
  <-> HasFolder ds /\ HasFile ds.
Proof.
  rewrite andb_true_iff, !Nat.ltb_lt, <- HasFolder_filter, <- HasFile_count.
  reflexivity.
Qed.

(** The continuation is reached exactly by the results that carry [docs],
    do not mix folders with other documents and hold at most five documents
    that are not folders; what it receives is the result itself. *)
Theorem handleCallback_forwards_iff (data received : PickerCallback) :
  In (CallbackFunction received) (handleCallback data) <->
  received = data /\
  exists ds, docs data = Some ds
             /\ ~ (HasFolder ds /\ HasFile ds)
             /\ (file_count ds <= 5)%nat.
Proof.
  destruct (docs data) as [ds|] eqn:Hd.
  - rewrite (handleCallback_cases data ds Hd).
    destruct (Nat.ltb 0 (List.length (filter is_folder ds)) && Nat.ltb 0 (file_count ds))
      eqn:Em.
    + apply mixed_test in Em. split.
      * intros [H | []]. discriminate H.
      * intros (_ & ds' & E & Hn & _). inversion E; subst ds'. contradiction.
    + assert (Hnm : ~ (HasFolder ds /\ HasFile ds)).
      { intros H. apply mixed_test in H. congruence. }
      destruct (Nat.ltb_spec 5 (file_count ds)) as [H5 | H5].
      * split.
        -- intros [H | []]. discriminate H.
        -- intros (_ & ds' & E & _ & Hle). inversion E; subst ds'. lia.
      * split.
        -- intros [H | []]. inversion H. split; [reflexivity |].
           exists ds. repeat split; assumption.
        -- intros (-> & _). left. reflexivity.
  - unfold handleCallback. rewrite Hd. split.
    + intros [].
    + intros (_ & ds & E & _). discriminate E.
Qed.

(** One picker result causes at most one call: nothing, one of the two
    notices, or the continuation with the result itself; never a notice
    together with the continuation. *)
Theorem handleCallback_one_call (data : PickerCallback) :
  handleCallback data = []
  \/ handleCallback data = [Info mixed_notice]
  \/ handleCallback data = [Info too_many_notice]
  \/ handleCallback data = [CallbackFunction data].
Proof.
  unfold handleCallback. destruct (docs data) as [ds|]; [| left; reflexivity].
  destruct (_ && _); [right; left; reflexivity |].
  destruct (Nat.ltb 5 _); [right; right; left | right; right; right]; reflexivity.
Qed.

(** The verdict depends on how many folders and how many other documents
    were picked, not on the order they come in. *)
Theorem handleCallback_order_irrelevant (data data' : PickerCallback) ds ds' :
  docs data = Some ds ->
  docs data' = Some ds' ->
  Permutation ds ds' ->
  filter is_notice (handleCallback data) = filter is_notice (handleCallback data')
  /\ existsb invokes_continuation (handleCallback data)
     = existsb invokes_continuation (handleCallback data').
Proof.
  intros Hd Hd' Hp.
  rewrite (handleCallback_cases data ds Hd), (handleCallback_cases data' ds' Hd').
  rewrite (folder_count_perm ds ds' Hp), (file_count_perm ds ds' Hp).
  destruct (_ && _); [split; reflexivity |].
  destruct (Nat.ltb 5 _); split; reflexivity.
Qed.

Lemma handleCallback_order_irrelevant_witness :
  filter is_notice (handleCallback mixed_result)
  = filter is_notice
      (handleCallback
         {| action := "picked";
            docs := Some [ {| doc_type := "document"; doc_id := "d2" |};
                           {| doc_type := "folder"; doc_id := "d1" |} ] |})
  /\ existsb invokes_continuation (handleCallback mixed_result)
     = existsb invokes_continuation
         (handleCallback
            {| action := "picked";
               docs := Some [ {| doc_type := "document"; doc_id := "d2" |};
                              {| doc_type := "folder"; doc_id := "d1" |} ] |}).
Proof.
  apply (handleCallback_order_irrelevant mixed_result
           {| action := "picked";
              docs := Some [ {| doc_type := "document"; doc_id := "d2" |};
                             {| doc_type := "folder"; doc_id := "d1" |} ] |}
           [ {| doc_type := "folder"; doc_id := "d1" |};
             {| doc_type := "document"; doc_id := "d2" |} ]
           [ {| doc_type := "document"; doc_id := "d2" |};
             {| doc_type := "folder"; doc_id := "d1" |} ]
           eq_refl eq_refl).
  apply perm_swap.
Defined.

Lemma handleCallback_all_folders_witness :
  let data := {| action := "picked";
                 docs := Some (repeat {| doc_type := "folder"; doc_id := "d" |} 7) |} in
  handleCallback data = [CallbackFunction data].
Proof.
  apply (handleCallback_all_folders
           {| action := "picked";
              docs := Some (repeat {| doc_type := "folder"; doc_id := "d" |} 7) |}
           (repeat {| doc_type := "folder"; doc_id := "d" |} 7) eq_refl).
  repeat constructor.
Defined.

(** With both credentials set, calling the returned function opens the
    picker once and sends no notice; the picker gets the two credentials,
    [handleCallback] as its callback, so that whatever it returns goes
    through the checks above, and as token that of the first tool named
    [TOOL_GOOGLE_DRIVE_ID], or the empty string when there is no such
    tool. *)
Theorem useOpenGoogleDrivePicker_available TOOL_GOOGLE_DRIVE_ID cid key toolsData :
  cid <> "" -> key <> "" ->
  exists configuration,
    useOpenGoogleDrivePicker TOOL_GOOGLE_DRIVE_ID (Some cid) (Some key) toolsData
    = [OpenPicker configuration]
    /\ clientId _ configuration = cid
    /\ developerKey _ configuration = key
    /\ (forall data, callbackFunction configuration data = handleCallback data)
    /\ (forall t v, googleDriveTool TOOL_GOOGLE_DRIVE_ID toolsData = Some t ->
                    token t = Some v -> picker_token _ configuration = v)
    /\ (forall t, googleDriveTool TOOL_GOOGLE_DRIVE_ID toolsData = Some t ->
                  token t = None -> picker_token _ configuration = "")
    /\ (googleDriveTool TOOL_GOOGLE_DRIVE_ID toolsData = None ->
        picker_token _ configuration = "").
Proof.
  intros Hc Hk. unfold useOpenGoogleDrivePicker. simpl.
  apply String.eqb_neq in Hc. apply String.eqb_neq in Hk.
  rewrite Hc, Hk. simpl. eexists. split; [reflexivity |]. simpl.
  repeat split.
  - intros t v Ht Hv. rewrite Ht. simpl. rewrite Hv. reflexivity.
  - intros t Ht Hv. rewrite Ht. simpl. rewrite Hv. reflexivity.
  - intros Ht. rewrite Ht. reflexivity.
Qed.

Lemma useOpenGoogleDrivePicker_available_witness :
  exists configuration,
    useOpenGoogleDrivePicker "google_drive" (Some "client-id") (Some "dev-key")
      (Some [ {| t_name := "google_drive"; is_visible := Some true;
                 is_available := Some true; is_auth_required := Some true;
                 token := Some "tok" |} ])
    = [OpenPicker configuration]
    /\ picker_token _ configuration = "tok".
Proof.
  destruct (useOpenGoogleDrivePicker_available "google_drive" "client-id" "dev-key"
              (Some [ {| t_name := "google_drive"; is_visible := Some true;
                         is_available := Some true; is_auth_required := Some true;
                         token := Some "tok" |} ]))
    as (configuration & Hopen & _ & _ & _ & Htok & _ & _).
  - discriminate.
  - discriminate.
  - exists configuration. split; [exact Hopen |].
    apply (Htok _ "tok" eq_refl eq_refl).
Defined.

End PickerLaws.

(** * Further properties of the deployment form *)

Module EnvFormLaws.
Import Js Tools EnvForm JsFacts EnvFormFacts.

(** *** Reading properties back *)

Lemma js_get_define_same (o : JsObject) k v : js_get (js_define o k v) k = Some v.
Proof.
  induction o as [|[k' v'] r IH]; simpl.
  - rewrite String.eqb_refl. reflexivity.
  - destruct (k' =? k) eqn:E; simpl; rewrite E; [reflexivity | exact IH].
Qed.

Lemma js_get_define_other (o : JsObject) k v k' :
  k' <> k -> js_get (js_define o k v) k' = js_get o k'.
Proof.
  intros Hne. induction o as [|[x w] r IH]; simpl.
  - destruct (String.eqb_spec k k') as [E | E]; [| reflexivity].
    exfalso. apply Hne. symmetry. exact E.
  - destruct (x =? k) eqn:E; simpl.
    + apply String.eqb_eq in E. subst x.
      destruct (String.eqb_spec k k') as [E' | E']; [| reflexivity].
      exfalso. apply Hne. symmetry. exact E'.
    + rewrite IH. reflexivity.
Qed.

Lemma js_get_absent (o : JsObject) k :
  ~ In k (map fst o) -> js_get o k = None.
Proof.
  induction o as [|[x w] r IH]; simpl; intros Hn; [reflexivity |].
  destruct (String.eqb_spec x k) as [E | E]; [exfalso; apply Hn; left; exact E |].
  apply IH. intros Hin. apply Hn. right. exact Hin.
Qed.

Lemma js_get_present (o : JsObject) k :
  In k (map fst o) -> exists v, js_get o k = Some v.
Proof.
  induction o as [|[x w] r IH]; simpl; intros Hin; [destruct Hin |].
  destruct (String.eqb_spec x k) as [E | E]; [exists w; reflexivity |].
  destruct Hin as [Hx | Hr]; [contradiction | exact (IH Hr)].
Qed.

Lemma fold_define_get_absent (es acc : JsObject) k :
  ~ In k (map fst es) ->
  js_get (fold_left (fun a kv => js_define a (fst kv) (snd kv)) es acc) k = js_get acc k.
Proof.
  revert acc. induction es as [|[x w] r IH]; intros acc Hn; simpl; [reflexivity |].
  rewrite IH.
  - apply js_get_define_other. intros E. apply Hn. left. symmetry. exact E.
  - intros Hin. apply Hn. right. exact Hin.
Qed.

Lemma fold_define_get_present (es acc : JsObject) k w :
  (forall e, In e es -> fst e = k -> snd e = w) ->
  In k (map fst es) ->
  js_get (fold_left (fun a kv => js_define a (fst kv) (snd kv)) es acc) k = Some w.
Proof.
  revert acc. induction es as [|[x u] r IH]; intros acc Hval Hin; simpl;
    [destruct Hin |].
  destruct (in_dec string_dec k (map fst r)) as [Hr | Hr].
  - apply IH; [| exact Hr]. intros e He. apply Hval. right. exact He.
  - rewrite (fold_define_get_absent r _ k Hr).
    destruct Hin as [Hx | Hin]; [| contradiction]. simpl in Hx. subst x.
    assert (Hu : u = w) by exact (Hval (k, u) (or_introl eq_refl) eq_refl).
    subst u. apply js_get_define_same.
Qed.

Lemma Object_entries_keys (o : JsObject) :
  map fst (Object_entries o) = Object_keys o.
Proof.
  unfold Object_entries. rewrite map_map. simpl. apply map_id.
Qed.

(** Spreading keeps what every key reads as. *)
Lemma js_get_spread (o : JsObject) k : js_get (js_spread o) k = js_get o k.
Proof.
  unfold js_spread.
  destruct (in_dec string_dec k (map fst o)) as [Hin | Hout].
  - destruct (js_get_present o k Hin) as [v Hv]. rewrite Hv.
    apply fold_define_get_present.
    + intros e He Hk. unfold Object_entries in He. apply in_map_iff in He.
      destruct He as (x & <- & _). simpl in *. subst x. rewrite Hv. reflexivity.
    + rewrite Object_entries_keys. unfold Object_keys.
      apply own_key_order_In. exact Hin.
  - rewrite (js_get_absent o k Hout).
    rewrite fold_define_get_absent; [reflexivity |].
    rewrite Object_entries_keys. unfold Object_keys.
    intros Hin. apply Hout. apply (proj1 (own_key_order_In _ _) Hin).
Qed.

(** Editing a field sets that field and no other: the field reads back as
    the value typed, every other field reads as before. *)
Theorem handleEnvVariableChange_reads_back envVar value other st :
  other <> envVar ->
  js_get (envVariables (handleEnvVariableChange envVar value st)) envVar = Some value
  /\ js_get (envVariables (handleEnvVariableChange envVar value st)) other
     = js_get (envVariables st) other.
Proof.
  intros Hne. simpl. split.
  - apply js_get_define_same.
  - rewrite (js_get_define_other _ envVar value other Hne). apply js_get_spread.
Qed.

Lemma handleEnvVariableChange_reads_back_witness :
  let st := apply_edits [("API_KEY", "x"); ("REGION", "us")]
              (handleDeploymentChange prod_catalog "prod" (initialState prod_catalog "")) in
  js_get (envVariables (handleEnvVariableChange "REGION" "eu" st)) "REGION" = Some "eu"
  /\ js_get (envVariables (handleEnvVariableChange "REGION" "eu" st)) "API_KEY"
     = Some "x".
Proof.
  apply (handleEnvVariableChange_reads_back "REGION" "eu" "API_KEY").
  discriminate.
Defined.

(** *** Selecting a deployment, in general *)

Lemma fold_assign_skips_proto ks : forall o : JsObject,
  fold_left (fun acc envVar => js_assign acc envVar "") ks o
  = fold_left (fun acc envVar => js_assign acc envVar "") (filter not_proto ks) o.
Proof.
  induction ks as [|k r IH]; intros o; simpl; [reflexivity |].
  unfold not_proto at 1. destruct (k =? "__proto__") eqn:E; simpl.
  - unfold js_assign at 2. rewrite E. apply IH.
  - apply IH.
Qed.

Lemma emptyEnvVariables_general d :
  emptyEnvVariables (Some d)
  = tabulate (fun _ => "") (first_occurrences (filter not_proto (env_vars d))).
Proof.
  unfold emptyEnvVariables. rewrite fold_assign_skips_proto.
  change (@nil (string * string)) with (tabulate (fun _ => "") []).
  rewrite fold_assign_blank.
  - simpl. f_equal. apply filter_all. apply Forall_forall. reflexivity.
  - intros Hin. apply filter_In in Hin. destruct Hin as [_ Hp].
    discriminate Hp.
Qed.

(** For every catalog, name and prior draft: the draft after a selection
    holds one blank field for each distinct variable of the deployment found
    under that name, the name [__proto__] excepted; in [Object.entries]
    order these are the variables that spell an array index, ascending, then
    the others as [env_vars] lists them. Nothing of the prior draft is kept,
    and a name that is not found gives the empty draft. *)
Theorem handleDeploymentChange_draft deployments name st :
  let st' := handleDeploymentChange deployments name st in
  match selectedDeployment deployments name with
  | Some d =>
      Object_entries (envVariables st')
      = map (fun k => (k, ""))
          (own_key_order (first_occurrences (filter not_proto (env_vars d))))
      /\ (forall k, In k (Object_keys (envVariables st')) <->
                    In k (env_vars d) /\ k <> "__proto__")
  | None => envVariables st' = []
  end.
Proof.
  simpl. destruct (selectedDeployment deployments name) as [d|]; [| reflexivity].
  rewrite emptyEnvVariables_general. split.
  - apply Object_entries_tabulate.
  - intros k. rewrite Object_keys_tabulate, own_key_order_In, first_occurrences_In.
    rewrite filter_In. unfold not_proto. rewrite negb_true_iff, String.eqb_neq.
    reflexivity.
Qed.

(** The inputs are rendered from [Object.keys(envVariables)]: typing into
    the rendered fields, in any order and any number of times, never adds,
    drops or reorders a field. *)
Theorem apply_edits_keeps_fields deployments name st edits :
  let selected := handleDeploymentChange deployments name st in
  Forall (fun e => In (fst e) (Object_keys (envVariables selected))) edits ->
  Object_keys (envVariables (apply_edits edits selected))
  = Object_keys (envVariables selected).
Proof.
  intros selected Hedits.
  assert (Hsel : exists ks, NoDup ks /\ envVariables selected = tabulate (fun _ => "") ks).
  { unfold selected. simpl.
    destruct (selectedDeployment deployments name) as [d|].
    - eexists. split; [| apply emptyEnvVariables_general].
      apply first_occurrences_NoDup.
    - exists []. split; [constructor | reflexivity]. }
  destruct Hsel as (ks & Hnd & Hks).
  rewrite <- !Object_entries_keys.
  rewrite (apply_edits_entries edits (fun _ => "") ks selected Hnd).
  - rewrite Hks, Object_entries_tabulate. unfold tabulate. rewrite !map_map. reflexivity.
  - eapply Forall_impl; [| exact Hedits]. intros e He.
    apply (proj1 (own_key_order_In ks (fst e))).
    rewrite <- (Object_keys_tabulate (fun _ => "") ks), <- Hks. exact He.
  - exact Hks.
Qed.

Lemma apply_edits_keeps_fields_witness :
  Object_keys
    (envVariables
       (apply_edits [("REGION", "us"); ("1", "a"); ("REGION", "eu")]
          (handleDeploymentChange numbered_catalog "prod"
             (initialState numbered_catalog ""))))
  = ["1"; "REGION"].
Proof.
  apply (apply_edits_keeps_fields numbered_catalog "prod"
           (initialState numbered_catalog "")
           [("REGION", "us"); ("1", "a"); ("REGION", "eu")]).
  constructor; [right; left; reflexivity |].
  constructor; [left; reflexivity |].
  constructor; [right; left; reflexivity | constructor].
Defined.

(** *** The dropdown and the button *)



(** In the modal as the button opens it, submit does nothing until a
    deployment is chosen: whatever the catalog and whatever is typed before,
    nothing is written and the modal is not closed. *)
Theorem handleClick_submit_noop deployments edits :
  handleSubmit (apply_edits edits (handleClick deployments))
  = (apply_edits edits (handleClick deployments), []).
Proof.
  apply handleSubmit_unselected.
  rewrite apply_edits_deployment. reflexivity.
Qed.

(** A name that is not in the catalog still counts as a selection for
    submit: the empty string is written to [deploymentConfig] and the modal
    is closed. *)
Theorem handleSubmit_name_not_found deployments name st :
  selectedDeployment deployments name = None ->
  name <> "" ->
  handleSubmit (handleDeploymentChange deployments name st)
  = ({| deployment := Some name; envVariables := []; isSubmitting := false |},
     [SetParams (config_patch ""); OnClose]).
Proof.
  intros Hnone Hname.
  rewrite (handleSubmit_selected (handleDeploymentChange deployments name st)
             name eq_refl Hname).
  simpl. rewrite Hnone. reflexivity.
Qed.

Lemma handleSubmit_name_not_found_witness :
  handleSubmit (handleDeploymentChange prod_catalog "staging" (initialState prod_catalog ""))
  = ({| deployment := Some "staging"; envVariables := []; isSubmitting := false |},
     [SetParams (config_patch ""); OnClose]).
Proof.
  apply (handleSubmit_name_not_found prod_catalog "staging").
  - reflexivity.
  - discriminate.
Defined.

(** *** The written string determines the draft, separators apart *)

Lemma has_char_app c a b : has_char c (a ++ b) = has_char c a || has_char c b.
Proof.
  induction a as [|x a IH]; simpl; [reflexivity |].
  rewrite IH, orb_assoc. reflexivity.
Qed.

Lemma split_at_separator c a b x y :
  has_char c a = false -> has_char c b = false ->
  (a ++ String c x)%string = (b ++ String c y)%string -> a = b /\ x = y.
Proof.
  revert b. induction a as [|a0 a IH]; intros [|b0 b]; simpl; intros Ha Hb E.
  - inversion E. split; reflexivity.
  - inversion E; subst. rewrite Ascii.eqb_refl in Hb. discriminate Hb.
  - inversion E; subst. rewrite Ascii.eqb_refl in Ha. discriminate Ha.
  - inversion E; subst. apply orb_false_iff in Ha, Hb.
    destruct (IH b (proj2 Ha) (proj2 Hb) H1) as [-> ->]. split; reflexivity.
Qed.

Lemma no_separator_inside c a b y :
  has_char c a = false -> a <> (b ++ String c y)%string.
Proof.
  intros Ha E. subst a. rewrite has_char_app in Ha. simpl in Ha.
  rewrite Ascii.eqb_refl in Ha. simpl in Ha. rewrite orb_true_r in Ha.
  discriminate Ha.
Qed.

Lemma join_cons2 sep x y r :
  join sep (x :: y :: r) = (x ++ sep ++ join sep (y :: r))%string.
Proof.
  reflexivity.
Qed.

Lemma join_injective (l1 l2 : list string) :
  Forall (fun s => has_char ";" s = false /\ s <> "") l1 ->
  Forall (fun s => has_char ";" s = false /\ s <> "") l2 ->
  join ";" l1 = join ";" l2 -> l1 = l2.
Proof.
  intros H1. revert l2.
  induction H1 as [|x r [Hx Hxe] Hr IH]; intros l2 H2 E.
  - destruct H2 as [|y r' [Hy Hye] Hr']; [reflexivity |].
    destruct r' as [|z r'']; simpl in E.
    + subst y. contradiction.
    + destruct y; [contradiction | discriminate E].
  - destruct H2 as [|y r' [Hy Hye] Hr'].
    + destruct r as [|z r'']; simpl in E.
      * subst x. contradiction.
      * destruct x; [contradiction | discriminate E].
    + destruct r as [|x' r0], r' as [|y' r1].
      * simpl in E. subst y. reflexivity.
      * rewrite join_cons2 in E. simpl in E.
        exfalso. exact (no_separator_inside ";" x y _ Hx E).
      * rewrite join_cons2 in E. simpl in E.
        exfalso. symmetry in E. exact (no_separator_inside ";" y x _ Hy E).
      * rewrite !join_cons2 in E. simpl in E.
        destruct (split_at_separator ";" x y _ _ Hx Hy E) as [-> Et].
        f_equal. apply IH; assumption.
Qed.

Lemma entry_injective (e1 e2 : string * string) :
  clean_entry e1 -> clean_entry e2 ->
  (fst e1 ++ "=" ++ snd e1)%string = (fst e2 ++ "=" ++ snd e2)%string -> e1 = e2.
Proof.
  destruct e1 as [k1 v1], e2 as [k2 v2]. unfold clean_entry. simpl.
  intros (_ & H1 & _) (_ & H2 & _) E.
  destruct (split_at_separator "=" k1 k2 v1 v2 H1 H2 E) as [-> ->]. reflexivity.
Qed.

Lemma entry_line_clean (e : string * string) :
  clean_entry e ->
  has_char ";" (fst e ++ "=" ++ snd e) = false
  /\ (fst e ++ "=" ++ snd e)%string <> "".
Proof.
  destruct e as [k v]. unfold clean_entry. simpl. intros (Hk & _ & Hv). split.
  - rewrite has_char_app. simpl. rewrite Hk, Hv. reflexivity.
  - destruct k; discriminate.
Qed.

(** When no name holds [;] or [=] and no value holds [;], two drafts that
    are written as the same string have the same fields, with the same
    values, in the same order. *)
Theorem serialize_injective (o1 o2 : JsObject) :
  Forall clean_entry (Object_entries o1) ->
  Forall clean_entry (Object_entries o2) ->
  serialize o1 = serialize o2 ->
  Object_entries o1 = Object_entries o2.
Proof.
  unfold serialize. generalize (Object_entries o1) (Object_entries o2).
  intros l1 l2 H1 H2 E.
  apply join_injective in E.
  - revert l2 H2 E. induction H1 as [|e1 r1 He1 _ IH]; intros l2 H2 E.
    + destruct l2; [reflexivity | discriminate E].
    + destruct H2 as [|e2 r2 He2 Hr2]; [discriminate E |].
      simpl in E. inversion E as [[Ee Er]].
      rewrite (entry_injective e1 e2 He1 He2 Ee). f_equal.
      apply IH; assumption.
  - apply Forall_map. eapply Forall_impl; [| exact H1].
    intros e. apply entry_line_clean.
  - apply Forall_map. eapply Forall_impl; [| exact H2].
    intros e. apply entry_line_clean.
Qed.

Lemma serialize_injective_witness :
  Object_entries [("REGION", "us"); ("1", "a=b")]
  = Object_entries [("1", "a=b"); ("REGION", "us")].
Proof.
  apply (serialize_injective [("REGION", "us"); ("1", "a=b")]
                             [("1", "a=b"); ("REGION", "us")]).
  - repeat constructor.
  - repeat constructor.
  - reflexivity.
Defined.

(** Without that condition the string is ambiguous: a [;] inside a value
    reads as the start of another field. *)
Lemma serialize_ambiguous :
  serialize [("A", "1;B=2")] = serialize [("A", "1"); ("B", "2")]
  /\ Object_entries [("A", "1;B=2")] <> Object_entries [("A", "1"); ("B", "2")].
Proof.
  split; [reflexivity | discriminate].
Qed.

End EnvFormLaws.
